(** * The Agora RTC adapter of the education web client

    A shallow embedding of [edu_web/src/utils/agora-rtc-client.ts]: the
    session class [AgoraRTCClient] and the coordinator class
    [AgoraWebClient], over a small model of the JavaScript run time they
    rely on (promises that settle once, a queue of pending callbacks, and
    the SDK as a collaborator whose replies are scripted).

    What the model covers
    - every field of both classes and every method the coordinator reaches;
    - promises: a store of settle-once cells, [await] as a run of the
      callback queue until the awaited cell is settled;
    - timers ([setTimeout]) and SDK callbacks as queued tasks, ordered by due
      time and, at equal due time, by registration;
    - the calls made on the SDK and on the console, recorded in order.

    What it leaves out
    - the event bus ([_bus], [bus]) and the handlers registered on the SDK:
      the registrations are recorded as calls, the forwarding itself is not
      modelled ([on], [off] and [removeAllListeners] only touch the bus);
    - the periodic emissions of the round-trip poll: [setInterval] and
      [clearInterval] are recorded and [_internalTimer] is tracked, the
      polled statistics are not;
    - SDK callbacks invoked synchronously are taken as due after 0 ms. *)

From Stdlib Require Import ZArith List String Bool Arith Lia.
Import ListNotations.
Open Scope string_scope.
Open Scope list_scope.

Set Implicit Arguments.

(** ** Data model *)

Record AudioOutput := { volume : Z; deviceId : string }.

(** [interface AgoraStreamSpec]; an optional member is an [option]. *)
Record AgoraStreamSpec := {
  streamID : Z;
  video : bool;
  audio : bool;
  mirror : option bool;
  screen : option bool;
  microphoneId : option string;
  cameraId : option string;
  audioOutput : option AudioOutput
}.

Definition streamEvents : list string :=
  [ "accessAllowed"; "accessDenied"; "stopScreenSharing";
    "videoTrackEnded"; "audioTrackEnded"; "player-status-changed" ].

Definition clientEvents : list string :=
  [ "stream-published"; "stream-added"; "stream-removed";
    "stream-subscribed"; "peer-online"; "peer-leave"; "error";
    "network-type-changed"; "network-quality"; "exception" ].

Definition SHARE_ID : Z := 7.

(** The argument of [AgoracreateStream]: a stream spec (from
    [createLocalStream]) or the preview literal of [createPreviewStream]. *)
Inductive StreamConfig :=
| OfSpec (data : AgoraStreamSpec)
| Preview (camera microphone speaker : option string).

(** An SDK stream object: what it was created from and whether the
    application is playing it (the answer of [isPlaying()]). *)
Record Stream := { config : StreamConfig; isPlaying : bool }.

(** A device as the SDK lists it, and the [Device] record the adapter
    returns. *)
Record SdkDevice := {
  sdk_deviceId : string; sdk_kind : string; sdk_label : string;
  sdk_groupId : string
}.
Record Device := { dev_deviceId : string; dev_kind : string; dev_label : string }.

(** Errors: whatever the SDK hands to a failure callback, or the
    [TypeError] of a call through [null]. *)
Inductive Err := SdkError (code : string) | TypeError (what : string).

Inductive Value := VUndefined | VDevices (ds : list Device) | VStream (st : Stream).

(** The state of a promise once settled. *)
Inductive Settled := Resolved (v : Value) | Rejected (e : Err).

(** [class AgoraRTCClient].  [_client] is the SDK client made by the field
    initialiser; it is never reassigned, so the session's identity stands for
    it.  The private field [streamID] is [client_streamID] here ([None] is
    [null]). *)
Record AgoraRTCClient := {
  client_streamID : option Z;
  _init : bool;
  _joined : bool;
  _published : bool;
  _internalTimer : option nat;
  _localStream : option Stream
}.

(** [class AgoraWebClient]; sessions are objects, held by reference. *)
Record AgoraWebClient := {
  rtc : nat;
  shareClient : option nat;
  localUid : Z;
  channel : string;
  shared : bool;
  joined : bool;
  published : bool
}.

(** ** The SDK and the run time *)

(** Calls made on the SDK, the timers and the console, as a test double
    would record them.  [sid] is the session whose [_client] or
    [_localStream] receives the call. *)
Inductive SdkCall :=
| CreateClient (sid : nat)
| ClientInit (sid : nat) (appId : string)
| ClientOn (sid : nat) (evt : string)
| ClientOff (sid : nat) (evt : string)
| ClientPublish (sid : nat) (st : option Stream)
| ClientUnpublish (sid : nat) (st : option Stream)
| ClientSetRemoteVideoStreamType (sid : nat) (remote : nat) (streamType : Z)
| ClientEnableDualStream (sid : nat)
| ClientJoin (sid : nat) (chan : string) (uid : Z)
| ClientLeave (sid : nat)
| ClientSetAudioOutput (sid : nat) (speakerId : string)
| ClientSubscribe (sid : nat) (remote : nat)
| CreateStream (cfg : StreamConfig)
| StreamInit (cfg : StreamConfig)
| StreamOn (sid : nat) (evt : string)
| StreamRemoveEventListener (sid : nat) (evt : string)
| StreamStop (sid : nat)
| StreamClose (sid : nat)
| GetDevices
| SetInterval (handle : nat) (ms : nat)
| ClearInterval (handle : nat)
| ConsoleLog (msg : string).

(** How the SDK answers one callback-style call: it invokes the success
    callback or the failure callback after some delay, or neither.  For a
    call that only takes a failure callback ([publish], [unpublish],
    [subscribe]) [Succeeds] and [Silent] both mean that it is not invoked. *)
Inductive Reply := Succeeds (delay : nat) | Fails (delay : nat) (e : Err) | Silent.

(** The closures the source hands to the SDK and to [setTimeout],
    defunctionalised.  [p] is the promise whose [resolve]/[reject] the
    closure captured, [sid] the session it captured as [this]. *)
Inductive Task :=
| TResolve (p : nat)
| TReject (p : nat) (e : Err)
| TInitOk (sid p : nat)
| TPublishTimer (sid p : nat)
| TUnpublishTimer (sid p : nat)
| TStreamInitOk (sid p : nat) (data : AgoraStreamSpec)
| TDestroyStreamTimer (sid : nat)
| TGetDevicesOk (p : nat)
| TPreviewInitOk (p : nat) (st : Stream)
| TSubscribeFailed (e : Err).

Record World := {
  APP_ID : string;                  (* process.env.REACT_APP_AGORA_APP_ID *)
  heap : nat -> AgoraRTCClient;     (* the sessions, by reference *)
  next_client : nat;
  web : AgoraWebClient;
  promises : nat -> option Settled; (* [None]: pending *)
  next_promise : nat;
  queue : list (nat * Task);        (* pending callbacks, by due time *)
  now : nat;                        (* ms *)
  next_handle : nat;
  script : list Reply;              (* the SDK's answers, in call order *)
  sdk_devices : list SdkDevice;
  calls : list SdkCall              (* oldest first *)
}.

(** *** Field updates *)

Definition set_heap (h : nat -> AgoraRTCClient) (w : World) : World :=
  {| APP_ID := APP_ID w; heap := h; next_client := next_client w; web := web w;
     promises := promises w; next_promise := next_promise w; queue := queue w;
     now := now w; next_handle := next_handle w; script := script w;
     sdk_devices := sdk_devices w; calls := calls w |}.
Definition set_next_client (n : nat) (w : World) : World :=
  {| APP_ID := APP_ID w; heap := heap w; next_client := n; web := web w;
     promises := promises w; next_promise := next_promise w; queue := queue w;
     now := now w; next_handle := next_handle w; script := script w;
     sdk_devices := sdk_devices w; calls := calls w |}.
Definition set_web (x : AgoraWebClient) (w : World) : World :=
  {| APP_ID := APP_ID w; heap := heap w; next_client := next_client w; web := x;
     promises := promises w; next_promise := next_promise w; queue := queue w;
     now := now w; next_handle := next_handle w; script := script w;
     sdk_devices := sdk_devices w; calls := calls w |}.
Definition set_promises (ps : nat -> option Settled) (w : World) : World :=
  {| APP_ID := APP_ID w; heap := heap w; next_client := next_client w; web := web w;
     promises := ps; next_promise := next_promise w; queue := queue w;
     now := now w; next_handle := next_handle w; script := script w;
     sdk_devices := sdk_devices w; calls := calls w |}.
Definition set_next_promise (n : nat) (w : World) : World :=
  {| APP_ID := APP_ID w; heap := heap w; next_client := next_client w; web := web w;
     promises := promises w; next_promise := n; queue := queue w;
     now := now w; next_handle := next_handle w; script := script w;
     sdk_devices := sdk_devices w; calls := calls w |}.
Definition set_queue (q : list (nat * Task)) (w : World) : World :=
  {| APP_ID := APP_ID w; heap := heap w; next_client := next_client w; web := web w;
     promises := promises w; next_promise := next_promise w; queue := q;
     now := now w; next_handle := next_handle w; script := script w;
     sdk_devices := sdk_devices w; calls := calls w |}.
Definition set_now (t : nat) (w : World) : World :=
  {| APP_ID := APP_ID w; heap := heap w; next_client := next_client w; web := web w;
     promises := promises w; next_promise := next_promise w; queue := queue w;
     now := t; next_handle := next_handle w; script := script w;
     sdk_devices := sdk_devices w; calls := calls w |}.
Definition set_next_handle (n : nat) (w : World) : World :=
  {| APP_ID := APP_ID w; heap := heap w; next_client := next_client w; web := web w;
     promises := promises w; next_promise := next_promise w; queue := queue w;
     now := now w; next_handle := n; script := script w;
     sdk_devices := sdk_devices w; calls := calls w |}.
Definition set_script (s : list Reply) (w : World) : World :=
  {| APP_ID := APP_ID w; heap := heap w; next_client := next_client w; web := web w;
     promises := promises w; next_promise := next_promise w; queue := queue w;
     now := now w; next_handle := next_handle w; script := s;
     sdk_devices := sdk_devices w; calls := calls w |}.
Definition set_calls (cs : list SdkCall) (w : World) : World :=
  {| APP_ID := APP_ID w; heap := heap w; next_client := next_client w; web := web w;
     promises := promises w; next_promise := next_promise w; queue := queue w;
     now := now w; next_handle := next_handle w; script := script w;
     sdk_devices := sdk_devices w; calls := cs |}.

Definition with_streamID (v : option Z) (c : AgoraRTCClient) : AgoraRTCClient :=
  {| client_streamID := v; _init := _init c; _joined := _joined c;
     _published := _published c; _internalTimer := _internalTimer c;
     _localStream := _localStream c |}.
Definition with_init (b : bool) (c : AgoraRTCClient) : AgoraRTCClient :=
  {| client_streamID := client_streamID c; _init := b; _joined := _joined c;
     _published := _published c; _internalTimer := _internalTimer c;
     _localStream := _localStream c |}.
Definition with_published (b : bool) (c : AgoraRTCClient) : AgoraRTCClient :=
  {| client_streamID := client_streamID c; _init := _init c; _joined := _joined c;
     _published := b; _internalTimer := _internalTimer c;
     _localStream := _localStream c |}.
Definition with_internalTimer (t : option nat) (c : AgoraRTCClient) : AgoraRTCClient :=
  {| client_streamID := client_streamID c; _init := _init c; _joined := _joined c;
     _published := _published c; _internalTimer := t;
     _localStream := _localStream c |}.
Definition with_localStream (s : option Stream) (c : AgoraRTCClient) : AgoraRTCClient :=
  {| client_streamID := client_streamID c; _init := _init c; _joined := _joined c;
     _published := _published c; _internalTimer := _internalTimer c;
     _localStream := s |}.

Definition with_shareClient (s : option nat) (x : AgoraWebClient) : AgoraWebClient :=
  {| rtc := rtc x; shareClient := s; localUid := localUid x; channel := channel x;
     shared := shared x; joined := joined x; published := published x |}.
Definition with_localUid (u : Z) (x : AgoraWebClient) : AgoraWebClient :=
  {| rtc := rtc x; shareClient := shareClient x; localUid := u; channel := channel x;
     shared := shared x; joined := joined x; published := published x |}.
Definition with_channel (c : string) (x : AgoraWebClient) : AgoraWebClient :=
  {| rtc := rtc x; shareClient := shareClient x; localUid := localUid x; channel := c;
     shared := shared x; joined := joined x; published := published x |}.
Definition with_shared (b : bool) (x : AgoraWebClient) : AgoraWebClient :=
  {| rtc := rtc x; shareClient := shareClient x; localUid := localUid x;
     channel := channel x; shared := b; joined := joined x; published := published x |}.
Definition with_joined (b : bool) (x : AgoraWebClient) : AgoraWebClient :=
  {| rtc := rtc x; shareClient := shareClient x; localUid := localUid x;
     channel := channel x; shared := shared x; joined := b; published := published x |}.
Definition with_web_published (b : bool) (x : AgoraWebClient) : AgoraWebClient :=
  {| rtc := rtc x; shareClient := shareClient x; localUid := localUid x;
     channel := channel x; shared := shared x; joined := joined x; published := b |}.

(** ** Asynchronous functions

    An [async] method is a state transformer that returns its value, throws
    (its promise rejects), or hangs on a promise that is never settled. *)

Inductive Result (A : Type) := Done (a : A) | Throw (e : Err) | Hang.
Arguments Throw {A} e.
Arguments Hang {A}.

Definition M (A : Type) := World -> Result A * World.

Definition ret {A} (a : A) : M A := fun w => (Done a, w).
Definition throw {A} (e : Err) : M A := fun w => (Throw e, w).
Definition bind {A B} (m : M A) (f : A -> M B) : M B :=
  fun w => match m w with
           | (Done a, w') => f a w'
           | (Throw e, w') => (Throw e, w')
           | (Hang, w') => (Hang, w')
           end.

Declare Scope async_scope.
Delimit Scope async_scope with async.
Notation "x <- m ;; k" := (bind m (fun x => k))
  (at level 61, m at next level, right associativity) : async_scope.
Notation "m ;; k" := (bind m (fun _ => k))
  (at level 61, right associativity) : async_scope.
Open Scope async_scope.

Definition exec {A} (m : M A) (w : World) : World := snd (m w).

Definition gets {A} (f : World -> A) : M A := fun w => (Done (f w), w).
Definition modify (f : World -> World) : M unit := fun w => (Done tt, f w).

Definition upd {A} (i : nat) (x : A) (f : nat -> A) : nat -> A :=
  fun j => if Nat.eqb j i then x else f j.
Arguments upd : simpl never.

Definition this (sid : nat) : M AgoraRTCClient := gets (fun w => heap w sid).
Definition assign (sid : nat) (f : AgoraRTCClient -> AgoraRTCClient) : M unit :=
  modify (fun w => set_heap (upd sid (f (heap w sid)) (heap w)) w).
Definition this_web : M AgoraWebClient := gets web.
Definition assign_web (f : AgoraWebClient -> AgoraWebClient) : M unit :=
  modify (fun w => set_web (f (web w)) w).

Definition call (c : SdkCall) : M unit :=
  modify (fun w => set_calls (calls w ++ [c]) w).

Fixpoint for_each {A} (xs : list A) (f : A -> M unit) : M unit :=
  match xs with
  | [] => ret tt
  | x :: xs' => f x ;; for_each xs' f
  end.

(** [new Promise(...)]: a fresh pending cell. *)
Definition new_promise : M nat :=
  fun w => (Done (next_promise w),
            set_next_promise (S (next_promise w))
              (set_promises (upd (next_promise w) None (promises w)) w)).

(** [resolve]/[reject]: the first settlement wins, later ones do nothing. *)
Definition settle (p : nat) (s : Settled) : M unit :=
  modify (fun w => match promises w p with
                   | None => set_promises (upd p (Some s) (promises w)) w
                   | Some _ => w
                   end).

(** Insertion in the queue: after every task due at or before [t]. *)
Fixpoint enqueue (t : nat) (k : Task) (q : list (nat * Task)) : list (nat * Task) :=
  match q with
  | [] => [(t, k)]
  | (t', k') :: q' => if Nat.ltb t t' then (t, k) :: q
                      else (t', k') :: enqueue t k q'
  end.

Definition setTimeout (k : Task) (ms : nat) : M unit :=
  modify (fun w => set_queue (enqueue (now w + ms) k (queue w)) w).

(** The SDK's next answer; once the script is used up it stays silent. *)
Definition next_reply : M Reply :=
  fun w => match script w with
           | [] => (Done Silent, w)
           | r :: rs => (Done r, set_script rs w)
           end.

(** A call with a success and a failure callback. *)
Definition sdk_callbacks (c : SdkCall) (onSuccess : Task) (onFailure : Err -> Task) : M unit :=
  call c ;;
  r <- next_reply ;;
  match r with
  | Succeeds d => setTimeout onSuccess d
  | Fails d e => setTimeout (onFailure e) d
  | Silent => ret tt
  end.

(** A call with a failure callback only. *)
Definition sdk_on_failure (c : SdkCall) (onFailure : Err -> Task) : M unit :=
  call c ;;
  r <- next_reply ;;
  match r with
  | Fails d e => setTimeout (onFailure e) d
  | Succeeds _ | Silent => ret tt
  end.

(** ** The session: synchronous methods *)

(** [new AgoraRTCClient()]: the field initialisers and the constructor. *)
Definition fresh_client : AgoraRTCClient :=
  {| client_streamID := None; _init := false; _joined := false;
     _published := false; _internalTimer := None; _localStream := None |}.

Definition new_AgoraRTCClient : M nat :=
  sid <- gets next_client ;;
  modify (fun w => set_next_client (S sid) (set_heap (upd sid fresh_client (heap w)) w)) ;;
  call (CreateClient sid) ;;
  ret sid.

Definition subscribeClientEvents (sid : nat) : M unit :=
  for_each clientEvents (fun evtName => call (ClientOn sid evtName)).

Definition unsubscribeClientEvents (sid : nat) : M unit :=
  for_each clientEvents (fun evtName => call (ClientOff sid evtName)).

Definition destroyClient (sid : nat) : M unit :=
  unsubscribeClientEvents sid.

(** [this._localStream.on(...)] throws when [_localStream] is [null]. *)
Definition subscribeLocalStreamEvents (sid : nat) : M unit :=
  c <- this sid ;;
  match _localStream c with
  | None => throw (TypeError "this._localStream is null")
  | Some _ => for_each streamEvents (fun evtName => call (StreamOn sid evtName))
  end.

Definition unsubscribeLocalStreamEvents (sid : nat) : M unit :=
  c <- this sid ;;
  match _localStream c with
  | Some _ =>
      for_each streamEvents (fun evtName => call (StreamRemoveEventListener sid evtName))
  | None => ret tt
  end.

Definition destroyLocalStream (sid : nat) : M unit :=
  unsubscribeLocalStreamEvents sid ;;
  c <- this sid ;;
  match _localStream c with
  | Some st =>
      (if isPlaying st then call (StreamStop sid) else ret tt) ;;
      call (StreamClose sid)
  | None => ret tt
  end ;;
  assign sid (with_localStream None) ;;
  assign sid (with_streamID (Some 0%Z)).

Definition setRemoteVideoStreamType (sid : nat) (stream : nat) (streamType : Z) : M unit :=
  call (ClientSetRemoteVideoStreamType sid stream streamType).

(** A timer handle is truthy unless it is 0. *)
Definition destroy (sid : nat) : M unit :=
  c <- this sid ;;
  match _internalTimer c with
  | Some (S h) => call (ClearInterval (S h))
  | Some O | None => ret tt
  end ;;
  assign sid (with_internalTimer None) ;;
  destroyLocalStream sid.

(** The failure callback of [subscribe] only writes to the console. *)
Definition stringify (e : Err) : string :=
  match e with SdkError code => code | TypeError what => what end.

Definition subscribe (sid : nat) (stream : nat) : M unit :=
  sdk_on_failure (ClientSubscribe sid stream) TSubscribeFailed.

(** [data.audioOutput && data.audioOutput.deviceId]: present and not the
    empty string. *)
Definition audioOutputDevice (data : AgoraStreamSpec) : option string :=
  match audioOutput data with
  | Some ao => if String.eqb (deviceId ao) "" then None else Some (deviceId ao)
  | None => None
  end.

(** ** Callbacks and the event loop *)

(** [{...data, mirror: false}] *)
Definition mirror_off (data : AgoraStreamSpec) : AgoraStreamSpec :=
  {| streamID := streamID data; video := video data; audio := audio data;
     mirror := Some false; screen := screen data;
     microphoneId := microphoneId data; cameraId := cameraId data;
     audioOutput := audioOutput data |}.

Definition to_device (item : SdkDevice) : Device :=
  {| dev_deviceId := sdk_deviceId item; dev_kind := sdk_kind item;
     dev_label := sdk_label item |}.

(** The body of each closure.  An exception raised inside one is lost to the
    SDK: the rest of the closure does not run. *)
Definition task_body (k : Task) : M unit :=
  match k with
  | TResolve p => settle p (Resolved VUndefined)
  | TReject p e => settle p (Rejected e)
  | TInitOk sid p =>
      (* initClient: () => { this._init = true; resolve() } *)
      assign sid (with_init true) ;;
      settle p (Resolved VUndefined)
  | TPublishTimer sid p =>
      (* publish: () => { resolve(); this._published = true } *)
      settle p (Resolved VUndefined) ;;
      assign sid (with_published true)
  | TUnpublishTimer sid p =>
      (* unpublish: () => { resolve(); this.destroyLocalStream();
                            this._published = false } *)
      settle p (Resolved VUndefined) ;;
      destroyLocalStream sid ;;
      assign sid (with_published false)
  | TStreamInitOk sid p data =>
      (* createLocalStream: the success callback of _localStream.init *)
      assign sid (with_streamID (Some (streamID data))) ;;
      subscribeLocalStreamEvents sid ;;
      match audioOutputDevice data with
      | Some speakerId =>
          (* this.setAudioOutput(id).then(() => resolve())
                                    .catch(err => reject(err)):
             the SDK's callbacks settle the inner promise, whose reactions
             call resolve or reject of [p] *)
          sdk_callbacks (ClientSetAudioOutput sid speakerId) (TResolve p) (TReject p)
      | None => ret tt
      end ;;
      (* no else, no return: resolve() runs in every case *)
      settle p (Resolved VUndefined)
  | TDestroyStreamTimer sid =>
      (* getDevices: () => { client.destroyLocalStream() } *)
      destroyLocalStream sid
  | TGetDevicesOk p =>
      ds <- gets sdk_devices ;;
      settle p (Resolved (VDevices (map to_device ds)))
  | TPreviewInitOk p st => settle p (Resolved (VStream st))
  | TSubscribeFailed e =>
      call (ConsoleLog ("[rtc-client] subscribe failed: " ++ stringify e)%string)
  end.

Definition run_task (k : Task) (w : World) : World := exec (task_body k) w.

(** One turn of the event loop: the earliest pending callback runs. *)
Definition tick (w : World) : World :=
  match queue w with
  | [] => w
  | (t, k) :: q => run_task k (set_now (Nat.max (now w) t) (set_queue q w))
  end.

(** A callback schedules at most one further callback, so this many turns
    empty the queue. *)
Definition task_weight (k : Task) : nat :=
  match k with TStreamInitOk _ _ _ => 2 | _ => 1 end.

Fixpoint weight (q : list (nat * Task)) : nat :=
  match q with
  | [] => 0
  | (_, k) :: q' => task_weight k + weight q'
  end.

(** [await p]: callbacks run, earliest first, until [p] is settled; the
    continuation then runs before any other callback. *)
Fixpoint await_loop (fuel : nat) (p : nat) (w : World) : Result Value * World :=
  match promises w p with
  | Some (Resolved v) => (Done v, w)
  | Some (Rejected e) => (Throw e, w)
  | None =>
      match fuel, queue w with
      | S fuel', _ :: _ => await_loop fuel' p (tick w)
      | _, _ => (Hang, w)
      end
  end.

Definition await (p : nat) : M Value :=
  fun w => await_loop (weight (queue w)) p w.
Arguments await : simpl never.

(** All callbacks due at or before [t] run ([n] bounds the turns). *)
Fixpoint run_until (n : nat) (t : nat) (w : World) : World :=
  match n, queue w with
  | S n', (t', _) :: _ => if Nat.leb t' t then run_until n' t (tick w) else w
  | _, _ => w
  end.

Definition elapse (ms : nat) (w : World) : World :=
  let t := now w + ms in
  let w' := run_until (weight (queue w)) t w in
  set_now (Nat.max (now w') t) w'.

(** ** The session: asynchronous methods

    Each is the method together with the [await] of its caller: every call
    site in the source awaits the promise at once. *)

Definition initClient (sid : nat) (appId : string) : M unit :=
  c <- this sid ;;
  if _init c then ret tt else
  p <- new_promise ;;
  (* this._init === false holds on this path *)
  sdk_callbacks (ClientInit sid appId) (TInitOk sid p) (TReject p) ;;
  _ <- await p ;;
  call (ConsoleLog "[smart-client] init client").

Definition createClient (sid : nat) (appId : string) (enableRtt : bool) : M unit :=
  initClient sid appId ;;
  subscribeClientEvents sid ;;
  if enableRtt then
    h <- gets next_handle ;;
    modify (set_next_handle (S h)) ;;
    call (SetInterval h 100) ;;
    assign sid (with_internalTimer (Some h))
  else ret tt.

Definition publish (sid : nat) : M unit :=
  p <- new_promise ;;
  c <- this sid ;;
  (if _published c then settle p (Resolved VUndefined)
   else
     sdk_on_failure (ClientPublish sid (_localStream c)) (TReject p) ;;
     setTimeout (TPublishTimer sid p) 300) ;;
  _ <- await p ;;
  ret tt.

Definition unpublish (sid : nat) : M unit :=
  p <- new_promise ;;
  c <- this sid ;;
  (if negb (_published c) || match _localStream c with None => true | Some _ => false end
   then settle p (Resolved VUndefined)
   else
     sdk_on_failure (ClientUnpublish sid (_localStream c)) (TReject p) ;;
     setTimeout (TUnpublishTimer sid p) 300) ;;
  _ <- await p ;;
  ret tt.

Definition enableDualStream (sid : nat) : M unit :=
  p <- new_promise ;;
  sdk_callbacks (ClientEnableDualStream sid) (TResolve p) (TReject p) ;;
  _ <- await p ;;
  ret tt.

Definition createLocalStream (sid : nat) (data : AgoraStreamSpec) : M unit :=
  let cfg := OfSpec (mirror_off data) in
  call (CreateStream cfg) ;;
  assign sid (with_localStream (Some {| config := cfg; isPlaying := false |})) ;;
  call (ConsoleLog "[smart-client] _localStream ") ;;
  p <- new_promise ;;
  sdk_callbacks (StreamInit cfg) (TStreamInitOk sid p data) (TReject p) ;;
  _ <- await p ;;
  ret tt.

(** [join]: [+uid] is [uid] for a number. *)
Definition join (sid : nat) (uid : Z) (chan : string) : M unit :=
  p <- new_promise ;;
  sdk_callbacks (ClientJoin sid chan uid) (TResolve p) (TReject p) ;;
  _ <- await p ;;
  ret tt.

(** [leave]: [this._client] is always set. *)
Definition leave (sid : nat) : M unit :=
  p <- new_promise ;;
  sdk_callbacks (ClientLeave sid) (TResolve p) (TReject p) ;;
  _ <- await p ;;
  ret tt.

Definition setAudioOutput (sid : nat) (speakerId : string) : M unit :=
  p <- new_promise ;;
  sdk_callbacks (ClientSetAudioOutput sid speakerId) (TResolve p) (TReject p) ;;
  _ <- await p ;;
  ret tt.

Definition exit (sid : nat) : M unit :=
  leave sid ;;
  destroy sid.

Definition getDevices (sid : nat) : M Value :=
  p <- new_promise ;;
  sdk_callbacks GetDevices (TGetDevicesOk p) (TReject p) ;;
  await p.

(** ** The coordinator *)

Module Web.

(** The constructor's state; the primary session is the first object. *)
Definition fresh (rtc0 : nat) : AgoraWebClient :=
  {| rtc := rtc0; shareClient := None; localUid := 0%Z; channel := "";
     shared := false; joined := false; published := false |}.

(** [this.shareClient.m()] through a [null] reference is a [TypeError]. *)
Definition the_shareClient : M nat :=
  x <- this_web ;;
  match shareClient x with
  | Some sid => ret sid
  | None => throw (TypeError "this.shareClient is null")
  end.

Definition the_rtc : M nat := x <- this_web ;; ret (rtc x).

Definition getDevices : M Value :=
  client <- new_AgoraRTCClient ;;
  appId <- gets APP_ID ;;
  initClient client appId ;;
  createLocalStream client
    {| streamID := 0%Z; audio := true; video := true; mirror := None;
       screen := None; microphoneId := Some ""; cameraId := Some "";
       audioOutput := None |} ;;
  setTimeout (TDestroyStreamTimer client) 80 ;;
  getDevices client.

Definition joinChannel (uid : Z) (chan : string) (dual : bool) : M unit :=
  assign_web (with_localUid uid) ;;
  assign_web (with_channel chan) ;;
  r <- the_rtc ;;
  appId <- gets APP_ID ;;
  createClient r appId true ;;
  x <- this_web ;;
  join r (localUid x) chan ;;
  (if dual then enableDualStream r else ret tt) ;;
  assign_web (with_joined true).

Definition unpublishLocalStream : M unit :=
  call (ConsoleLog "[smart-client] unpublishStream") ;;
  r <- the_rtc ;;
  unpublish r ;;
  assign_web (with_web_published false).

Definition leaveChannel : M unit :=
  assign_web (with_localUid 0%Z) ;;
  assign_web (with_channel "") ;;
  unpublishLocalStream ;;
  r <- the_rtc ;;
  leave r ;;
  destroy r ;;
  destroyClient r ;;
  assign_web (with_joined false).

Definition enableDualStream : M unit :=
  r <- the_rtc ;;
  enableDualStream r.

Definition publishLocalStream (data : AgoraStreamSpec) : M unit :=
  call (ConsoleLog " publish local stream ") ;;
  x <- this_web ;;
  (if published x then
     unpublishLocalStream ;;
     call (ConsoleLog "[smart-client] unpublished")
   else ret tt) ;;
  r <- the_rtc ;;
  createLocalStream r data ;;
  publish r ;;
  assign_web (with_web_published true).

Definition startScreenShare : M unit :=
  s <- new_AgoraRTCClient ;;
  assign_web (with_shareClient (Some s)) ;;
  s1 <- the_shareClient ;;
  createLocalStream s1
    {| video := false; audio := true; mirror := None; screen := Some true;
       streamID := SHARE_ID; microphoneId := Some ""; cameraId := Some "";
       audioOutput := None |} ;;
  s2 <- the_shareClient ;;
  appId <- gets APP_ID ;;
  createClient s2 appId false ;;
  s3 <- the_shareClient ;;
  x <- this_web ;;
  join s3 SHARE_ID (channel x) ;;
  s4 <- the_shareClient ;;
  publish s4 ;;
  assign_web (with_shared true).

Definition stopScreenShare : M unit :=
  s1 <- the_shareClient ;;
  unpublish s1 ;;
  s2 <- the_shareClient ;;
  leave s2 ;;
  s3 <- the_shareClient ;;
  destroy s3 ;;
  s4 <- the_shareClient ;;
  destroyClient s4 ;;
  assign_web (with_shared false).

Definition exit : M unit :=
  leaveChannel ;;
  x <- this_web ;;
  (if shared x then
     s1 <- the_shareClient ;;
     unpublish s1 ;;
     s2 <- the_shareClient ;;
     leave s2
   else ret tt) ;;
  x' <- this_web ;;
  match shareClient x' with
  | Some s =>
      destroy s ;;
      s' <- the_shareClient ;;
      destroyClient s'
  | None => ret tt
  end.

Definition createPreviewStream (cameraId microphoneId speakerId : option string) : M Value :=
  let cfg := Preview cameraId microphoneId speakerId in
  let tmpStream := {| config := cfg; isPlaying := false |} in
  call (CreateStream cfg) ;;
  p <- new_promise ;;
  sdk_callbacks (StreamInit cfg) (TPreviewInitOk p tmpStream) (TReject p) ;;
  await p.

Definition subscribe (stream : nat) : M unit :=
  r <- the_rtc ;;
  subscribe r stream.

Definition setRemoteVideoStreamType (stream : nat) (type : Z) : M unit :=
  r <- the_rtc ;;
  setRemoteVideoStreamType r stream type.

End Web.

(** ** Runs of the coordinator *)

(** The world right after [new AgoraWebClient()]. *)
Definition initial (appId : string) (sdk : list Reply) (devs : list SdkDevice) : World :=
  {| APP_ID := appId; heap := fun _ => fresh_client; next_client := 1;
     web := Web.fresh 0; promises := fun _ => None; next_promise := 0;
     queue := []; now := 0; next_handle := 1; script := sdk;
     sdk_devices := devs; calls := [CreateClient 0] |}.

(** What a caller can do with the coordinator: call one of its methods and
    await the result, or let the next pending callback run. *)
Inductive Op :=
| OpGetDevices
| OpJoinChannel (uid : Z) (chan : string) (dual : bool)
| OpLeaveChannel
| OpEnableDualStream
| OpPublishLocalStream (data : AgoraStreamSpec)
| OpUnpublishLocalStream
| OpStartScreenShare
| OpStopScreenShare
| OpExit
| OpCreatePreviewStream (cameraId microphoneId speakerId : option string)
| OpSubscribe (stream : nat)
| OpSetRemoteVideoStreamType (stream : nat) (type : Z)
| OpTick.

Definition run_op (o : Op) (w : World) : World :=
  match o with
  | OpGetDevices => exec Web.getDevices w
  | OpJoinChannel uid chan dual => exec (Web.joinChannel uid chan dual) w
  | OpLeaveChannel => exec Web.leaveChannel w
  | OpEnableDualStream => exec Web.enableDualStream w
  | OpPublishLocalStream data => exec (Web.publishLocalStream data) w
  | OpUnpublishLocalStream => exec Web.unpublishLocalStream w
  | OpStartScreenShare => exec Web.startScreenShare w
  | OpStopScreenShare => exec Web.stopScreenShare w
  | OpExit => exec Web.exit w
  | OpCreatePreviewStream c m s => exec (Web.createPreviewStream c m s) w
  | OpSubscribe stream => exec (Web.subscribe stream) w
  | OpSetRemoteVideoStreamType stream type =>
      exec (Web.setRemoteVideoStreamType stream type) w
  | OpTick => tick w
  end.

Definition run (ops : list Op) (w : World) : World :=
  fold_left (fun w o => run_op o w) ops w.

(** The states a caller can bring the coordinator to. *)
Definition reachable (w : World) : Prop :=
  exists appId sdk devs ops, w = run ops (initial appId sdk devs).

(** ** What the claims speak about *)

(** The initial values of a session's flags. *)
Definition at_initial_values (c : AgoraRTCClient) : Prop :=
  _init c = false /\ _joined c = false /\ _published c = false /\
  _localStream c = None /\ client_streamID c = None.

(** The numeric identifier a call hands to the SDK, if any: the uid of a
    join, the [streamID] of a stream that is created or initialised. *)
Definition call_id (c : SdkCall) : option Z :=
  match c with
  | ClientJoin _ _ uid => Some uid
  | CreateStream (OfSpec data) | StreamInit (OfSpec data) => Some (streamID data)
  | _ => None
  end.

Definition is_join_of (sid : nat) (c : SdkCall) : bool :=
  match c with ClientJoin s _ _ => Nat.eqb s sid | _ => false end.
Definition is_publish_of (sid : nat) (c : SdkCall) : bool :=
  match c with ClientPublish s _ => Nat.eqb s sid | _ => false end.
Definition is_unpublish_of (sid : nat) (c : SdkCall) : bool :=
  match c with ClientUnpublish s _ => Nat.eqb s sid | _ => false end.
Definition is_leave_of (sid : nat) (c : SdkCall) : bool :=
  match c with ClientLeave s => Nat.eqb s sid | _ => false end.

(** Client teardown: what [destroy] and [destroyClient] do on the client
    itself. *)
Definition is_client_teardown (c : SdkCall) : bool :=
  match c with ClearInterval _ | ClientOff _ _ => true | _ => false end.

(** The weakest reading of "the secondary session exists and has completed
    its join+publish sequence": there is a secondary session, and join and
    publish have at least been called on it. *)
Definition secondary_ready (w : World) : bool :=
  match shareClient (web w) with
  | Some s => existsb (is_join_of s) (calls w) && existsb (is_publish_of s) (calls w)
  | None => false
  end.

(** The calls a callback can make. *)
Definition is_task_call (c : SdkCall) : bool :=
  match c with
  | StreamOn _ _ | StreamRemoveEventListener _ _ | StreamStop _ | StreamClose _
  | ClientSetAudioOutput _ _ | ConsoleLog _ => true
  | _ => false
  end.

(** The calls [destroyLocalStream] makes on a stream. *)
Definition teardown_calls (sid : nat) (st : Stream) : list SdkCall :=
  map (StreamRemoveEventListener sid) streamEvents
  ++ (if isPlaying st then [StreamStop sid] else [])
  ++ [StreamClose sid].

(** ** Scenarios and auxiliary notions *)

Definition camera : AgoraStreamSpec :=
  {| streamID := 42; video := true; audio := true; mirror := None;
     screen := None; microphoneId := None; cameraId := None;
     audioOutput := None |}.

(** Joined as uid 42 in "room1" and publishing the camera; the SDK answered
    init, join and stream init after 5, 10 and 3 ms and reported no publish
    failure. *)
Definition publishing (sdk : list Reply) : World :=
  run [OpJoinChannel 42 "room1" false; OpPublishLocalStream camera]
    (initial "app" ([Succeeds 5; Succeeds 10; Succeeds 3; Silent] ++ sdk) []).

(** Joined as uid 42 in "room1" and sharing the screen: the secondary
    session is object 1. *)
Definition sharing (sdk : list Reply) : World :=
  run [OpJoinChannel 42 "room1" false; OpStartScreenShare]
    (initial "app"
       ([Succeeds 5; Succeeds 10; Succeeds 2; Succeeds 5; Succeeds 10; Silent] ++ sdk) []).

(** Joined as uid 42 in "room1", the camera stream created and not yet
    published. *)
Definition ready (sdk : list Reply) : World :=
  exec (createLocalStream 0 camera)
    (run [OpJoinChannel 42 "room1" false]
       (initial "app" ([Succeeds 5; Succeeds 10; Succeeds 3] ++ sdk) [])).

Definition leave_prelude (w : World) : World :=
  set_calls (calls w ++ [ConsoleLog "[smart-client] unpublishStream"])
    (set_web (with_channel "" (with_localUid 0%Z (web w))) w).

Definition leave_outcome (sdk : list Reply) : Result unit :=
  match sdk with
  | Succeeds _ :: _ => Done tt
  | Fails _ e :: _ => Throw e
  | _ => Hang
  end.

(** [!this._published || !this._localStream] *)
Definition nothing_to_unpublish (c : AgoraRTCClient) : bool :=
  negb (_published c) || match _localStream c with None => true | Some _ => false end.

Definition is_teardown_call (c : SdkCall) : bool :=
  is_task_call c || is_client_teardown c.

(** The error of an SDK failure that arrives before the 300 ms timer (at
    equal due time the SDK's callback, registered first, runs first). *)
Definition early_failure (sdk : list Reply) : option Err :=
  match sdk with
  | Fails d e :: _ => if Nat.leb d 300 then Some e else None
  | _ => None
  end.

(** The delay of the SDK's failure callback, when the SDK fails. *)
Definition failure_delay (sdk : list Reply) : nat :=
  match sdk with Fails d _ :: _ => d | _ => 0 end.

Definition outcome_of (sdk : list Reply) : Result unit :=
  match early_failure sdk with Some e => Throw e | None => Done tt end.

(** A method that raises [shared] exactly when it completes, and leaves
    [shareClient] alone. *)
Definition raises_shared (m : M unit) : Prop :=
  forall w,
    shareClient (web (snd (m w))) = shareClient (web w) /\
    match fst (m w) with
    | Done _ => shared (web (snd (m w))) = true
    | _ => shared (web (snd (m w))) = shared (web w)
    end.

Definition screen_spec : AgoraStreamSpec :=
  {| video := false; audio := true; mirror := None; screen := Some true;
     streamID := SHARE_ID; microphoneId := Some ""; cameraId := Some "";
     audioOutput := None |}.

(** The uid is untouched. *)
(** [shared] and the screen-share reference are untouched. *)
Definition same_share (w w' : World) : Prop :=
  shared (web w') = shared (web w) /\ shareClient (web w') = shareClient (web w).

Definition same_localUid (w w' : World) : Prop := localUid (web w') = localUid (web w).

(** Every identifier a call carries is [SHARE_ID]. *)
Definition uses_share_id (c : SdkCall) : Prop :=
  forall i, call_id c = Some i -> i = SHARE_ID.

(** The joins among the calls. *)
Definition joins (cs : list SdkCall) : list SdkCall :=
  filter (fun c => match c with ClientJoin _ _ _ => true | _ => false end) cs.

Definition camera_with_speaker : AgoraStreamSpec :=
  {| streamID := 42; video := true; audio := true; mirror := None;
     screen := None; microphoneId := None; cameraId := None;
     audioOutput := Some {| volume := 50; deviceId := "speaker-1" |} |}.

(** The assignments the source makes to a field of a session. *)
Inductive session_update : (AgoraRTCClient -> AgoraRTCClient) -> Prop :=
| upd_streamID v : session_update (with_streamID v)
| upd_init : session_update (with_init true)
| upd_published b : session_update (with_published b)
| upd_internalTimer t : session_update (with_internalTimer t)
| upd_localStream s : session_update (with_localStream s).

(** [_joined] is false in every session, if it was. *)
Definition never_joined (w w' : World) : Prop :=
  (forall sid, _joined (heap w sid) = false) ->
  forall sid, _joined (heap w' sid) = false.

(** Sessions are only added, and an initialised session stays so. *)
Definition init_kept (w w' : World) : Prop :=
  next_client w <= next_client w' /\
  forall sid, sid < next_client w ->
              _init (heap w sid) = true -> _init (heap w' sid) = true.

(** Relations kept by the run time's bookkeeping, by every assignment to the
    coordinator, by the creation of a session and by the assignments the
    source makes to a session. *)
Class Keeps (R : World -> World -> Prop) : Prop := {
  kp_refl : forall w, R w w;
  kp_trans : forall a b c, R a b -> R b c -> R a c;
  kp_assign : forall w sid f,
      session_update f -> R w (set_heap (upd sid (f (heap w sid)) (heap w)) w);
  kp_new : forall w,
      R w (set_next_client (S (next_client w))
             (set_heap (upd (next_client w) fresh_client (heap w)) w));
  kp_web : forall w x, R w (set_web x w);
  kp_promises : forall w ps, R w (set_promises ps w);
  kp_next_promise : forall w n, R w (set_next_promise n w);
  kp_queue : forall w q, R w (set_queue q w);
  kp_now : forall w t, R w (set_now t w);
  kp_next_handle : forall w n, R w (set_next_handle n w);
  kp_script : forall w s, R w (set_script s w);
  kp_calls : forall w cs, R w (set_calls cs w)
}.

(** ** Frames: what a run leaves alone

    A framing relation holds between a world and any world obtained from it
    by the bookkeeping of the run time (sessions, promises, queue, clock,
    script) and by calls that satisfy [ok].  Session methods and callbacks
    never assign a field of the coordinator, so every such relation holds
    across them. *)

Class Framing (R : World -> World -> Prop) (ok : SdkCall -> Prop) : Prop := {
  fr_refl : forall w, R w w;
  fr_trans : forall a b c, R a b -> R b c -> R a c;
  fr_heap : forall w h, R w (set_heap h w);
  fr_next_client : forall w n, R w (set_next_client n w);
  fr_promises : forall w ps, R w (set_promises ps w);
  fr_next_promise : forall w n, R w (set_next_promise n w);
  fr_queue : forall w q, R w (set_queue q w);
  fr_now : forall w t, R w (set_now t w);
  fr_next_handle : forall w n, R w (set_next_handle n w);
  fr_script : forall w s, R w (set_script s w);
  fr_calls : forall w c, ok c -> R w (set_calls (calls w ++ [c]) w)
}.

Definition frames (R : World -> World -> Prop) {A} (m : M A) : Prop :=
  forall w, R w (snd (m w)).

(** The coordinator is untouched. *)
Definition same_web (w w' : World) : Prop := web w' = web w.

(** The screen-share reference is untouched and [shared] is not raised. *)
Definition keeps_share (w w' : World) : Prop :=
  shareClient (web w') = shareClient (web w) /\
  (shared (web w') = true -> shared (web w) = true).

(** The screen-share reference is untouched. *)
Definition same_shareClient (w w' : World) : Prop :=
  shareClient (web w') = shareClient (web w).

(** Calls are only added, and every added call satisfies [P]. *)
Definition appends (P : SdkCall -> Prop) (w w' : World) : Prop :=
  exists l, calls w' = calls w ++ l /\ Forall P l.

#[export] Instance same_web_framing : Framing same_web (fun _ => True).
Proof. constructor; unfold same_web; intros; simpl; congruence. Qed.

#[export] Instance keeps_share_framing : Framing keeps_share (fun _ => True).
Proof.
  constructor; unfold keeps_share; intros; simpl; try tauto.
  destruct H as [H1 H2], H0 as [H3 H4]. split; [congruence | auto].
Qed.

#[export] Instance same_shareClient_framing : Framing same_shareClient (fun _ => True).
Proof. constructor; unfold same_shareClient; intros; simpl; congruence. Qed.

#[export] Instance appends_framing (P : SdkCall -> Prop) : Framing (appends P) P.
Proof.
  constructor; unfold appends; intros; simpl;
    try (exists []; rewrite app_nil_r; split; [reflexivity | constructor]).
  - destruct H as [l1 [E1 F1]], H0 as [l2 [E2 F2]].
    exists (l1 ++ l2). rewrite E2, E1, app_assoc. split; [reflexivity|].
    apply Forall_app; auto.
  - exists [c]. split; [reflexivity | constructor; auto].
Qed.

Section Frames.
Context {R : World -> World -> Prop} {ok : SdkCall -> Prop} `{!Framing R ok}.

Lemma frames_ret A (a : A) : frames R (ret a).
Proof. intro w. apply fr_refl. Qed.

Lemma frames_throw A (e : Err) : frames R (@throw A e).
Proof. intro w. apply fr_refl. Qed.

Lemma frames_bind A B (m : M A) (f : A -> M B) :
  frames R m -> (forall a, frames R (f a)) -> frames R (bind m f).
Proof.
  intros Hm Hf w. unfold bind. specialize (Hm w).
  destruct (m w) as [[a | e | ] w1]; simpl in *; auto.
  eapply fr_trans; [exact Hm | apply Hf].
Qed.

Lemma frames_gets A (f : World -> A) : frames R (gets f).
Proof. intro w. apply fr_refl. Qed.

Lemma frames_this sid : frames R (this sid).
Proof. apply frames_gets. Qed.

Lemma frames_this_web : frames R this_web.
Proof. apply frames_gets. Qed.

Lemma frames_assign sid f : frames R (assign sid f).
Proof. intro w. apply fr_heap. Qed.

Lemma frames_assign_web f :
  (forall w, R w (set_web (f (web w)) w)) -> frames R (assign_web f).
Proof. intros H w. apply H. Qed.

Lemma frames_call c : ok c -> frames R (call c).
Proof. intros H w. apply fr_calls, H. Qed.

Lemma frames_for_each A (xs : list A) (f : A -> M unit) :
  (forall x, frames R (f x)) -> frames R (for_each xs f).
Proof.
  intros H. induction xs as [| x xs IH]; simpl.
  - apply frames_ret.
  - apply frames_bind; auto.
Qed.

Lemma frames_new_promise : frames R new_promise.
Proof.
  intro w. simpl. eapply fr_trans; [apply fr_promises | apply fr_next_promise].
Qed.

Lemma frames_settle p s : frames R (settle p s).
Proof.
  intro w. unfold settle, modify. simpl.
  destruct (promises w p); [apply fr_refl | apply fr_promises].
Qed.

Lemma frames_setTimeout k ms : frames R (setTimeout k ms).
Proof. intro w. apply fr_queue. Qed.

Lemma frames_next_reply : frames R next_reply.
Proof.
  intro w. unfold next_reply. destruct (script w); simpl;
    [apply fr_refl | apply fr_script].
Qed.

Lemma frames_sdk_callbacks c k1 k2 : ok c -> frames R (sdk_callbacks c k1 k2).
Proof.
  intros H. unfold sdk_callbacks.
  apply frames_bind; [apply frames_call, H | intros _].
  apply frames_bind; [apply frames_next_reply | intros [d | d e | ]].
  - apply frames_setTimeout.
  - apply frames_setTimeout.
  - apply frames_ret.
Qed.

Lemma frames_sdk_on_failure c k : ok c -> frames R (sdk_on_failure c k).
Proof.
  intros H. unfold sdk_on_failure.
  apply frames_bind; [apply frames_call, H | intros _].
  apply frames_bind; [apply frames_next_reply | intros [d | d e | ]].
  - apply frames_ret.
  - apply frames_setTimeout.
  - apply frames_ret.
Qed.

End Frames.

Ltac frames_step :=
  lazymatch goal with
  | |- frames _ (bind _ _) => apply frames_bind; [ | intros ? ]
  | |- frames _ (ret _) => apply frames_ret
  | |- frames _ (throw _) => apply frames_throw
  | |- frames _ (this _) => apply frames_this
  | |- frames _ this_web => apply frames_this_web
  | |- frames _ (gets _) => apply frames_gets
  | |- frames _ (assign _ _) => apply frames_assign
  | |- frames _ (assign_web _) =>
      apply frames_assign_web; intros ?; simpl;
      try solve [ reflexivity | split; [reflexivity | tauto]
                | exists []; rewrite app_nil_r; split; [reflexivity | constructor] ]
  | |- frames _ (call _) => apply frames_call
  | |- frames _ (for_each _ _) => apply frames_for_each; intros ?
  | |- frames _ new_promise => apply frames_new_promise
  | |- frames _ (settle _ _) => apply frames_settle
  | |- frames _ (setTimeout _ _) => apply frames_setTimeout
  | |- frames _ next_reply => apply frames_next_reply
  | |- frames _ (sdk_callbacks _ _ _) => apply frames_sdk_callbacks
  | |- frames _ (sdk_on_failure _ _) => apply frames_sdk_on_failure
  | |- frames _ (match ?x with _ => _ end) => destruct x
  end.

Ltac frames_auto := repeat frames_step; simpl; auto.

Section SessionFrames.
Context {R : World -> World -> Prop} {ok : SdkCall -> Prop} `{!Framing R ok}.

(** Every call a callback can make is allowed. *)
Hypothesis tasks_ok : forall c, is_task_call c = true -> ok c.

Lemma frames_unsubscribeLocalStreamEvents sid :
  frames R (unsubscribeLocalStreamEvents sid).
Proof. unfold unsubscribeLocalStreamEvents. frames_auto. Qed.

Lemma frames_subscribeLocalStreamEvents sid :
  frames R (subscribeLocalStreamEvents sid).
Proof. unfold subscribeLocalStreamEvents. frames_auto. Qed.

Lemma frames_destroyLocalStream sid : frames R (destroyLocalStream sid).
Proof.
  unfold destroyLocalStream.
  apply frames_bind; [apply frames_unsubscribeLocalStreamEvents | intros _].
  frames_auto.
Qed.

Lemma frames_task_body k : frames R (task_body k).
Proof.
  destruct k; simpl; try solve [frames_auto].
  - apply frames_bind; [frames_auto | intros _].
    apply frames_bind; [apply frames_destroyLocalStream | intros _]. frames_auto.
  - apply frames_bind; [frames_auto | intros _].
    apply frames_bind; [apply frames_subscribeLocalStreamEvents | intros _].
    frames_auto.
  - apply frames_destroyLocalStream.
Qed.

Lemma frames_tick w : R w (tick w).
Proof.
  unfold tick. destruct (queue w) as [| [t k] q].
  - apply fr_refl.
  - eapply fr_trans; [apply fr_queue |].
    eapply fr_trans; [apply fr_now |]. apply frames_task_body.
Qed.

Lemma frames_await_loop fuel p : frames R (await_loop fuel p).
Proof.
  induction fuel as [| fuel IH]; intros w; simpl.
  - destruct (promises w p) as [[v | e] | ]; simpl; apply fr_refl.
  - destruct (promises w p) as [[v | e] | ]; simpl; try apply fr_refl.
    destruct (queue w) as [| x q] eqn:Q; simpl; [apply fr_refl |].
    eapply fr_trans; [apply frames_tick | apply IH].
Qed.

Lemma frames_await p : frames R (await p).
Proof. intro w. apply frames_await_loop. Qed.

Lemma frames_run_until n t w : R w (run_until n t w).
Proof.
  revert w. induction n as [| n IH]; intros w; simpl; [apply fr_refl |].
  destruct (queue w) as [| [t' k] q] eqn:Q; [apply fr_refl |].
  destruct (Nat.leb t' t); [| apply fr_refl].
  eapply fr_trans; [apply frames_tick | apply IH].
Qed.

Lemma frames_initClient sid appId :
  ok (ClientInit sid appId) -> frames R (initClient sid appId).
Proof.
  intros H. unfold initClient. frames_auto; apply frames_await.
Qed.

Lemma frames_createClient sid appId rtt :
  ok (ClientInit sid appId) -> (forall e, ok (ClientOn sid e)) ->
  (forall h, ok (SetInterval h 100)) ->
  frames R (createClient sid appId rtt).
Proof.
  intros H1 H2 H3. unfold createClient.
  apply frames_bind; [apply frames_initClient, H1 | intros _].
  unfold subscribeClientEvents. frames_auto.
  intro w. apply fr_next_handle.
Qed.

Lemma frames_publish sid :
  (forall st, ok (ClientPublish sid st)) -> frames R (publish sid).
Proof.
  intros H. unfold publish. frames_auto; apply frames_await.
Qed.

Lemma frames_unpublish sid :
  (forall st, ok (ClientUnpublish sid st)) -> frames R (unpublish sid).
Proof.
  intros H. unfold unpublish. frames_auto; apply frames_await.
Qed.

Lemma frames_enableDualStream sid :
  ok (ClientEnableDualStream sid) -> frames R (enableDualStream sid).
Proof.
  intros H. unfold enableDualStream. frames_auto; apply frames_await.
Qed.

Lemma frames_createLocalStream sid data :
  ok (CreateStream (OfSpec (mirror_off data))) ->
  ok (StreamInit (OfSpec (mirror_off data))) ->
  frames R (createLocalStream sid data).
Proof.
  intros H1 H2. unfold createLocalStream. frames_auto; apply frames_await.
Qed.

Lemma frames_join sid uid chan :
  ok (ClientJoin sid chan uid) -> frames R (join sid uid chan).
Proof.
  intros H. unfold join. frames_auto; apply frames_await.
Qed.

Lemma frames_leave sid : ok (ClientLeave sid) -> frames R (leave sid).
Proof.
  intros H. unfold leave. frames_auto; apply frames_await.
Qed.

Lemma frames_destroy sid :
  (forall h, ok (ClearInterval h)) -> frames R (destroy sid).
Proof.
  intros H. unfold destroy.
  apply frames_bind; [frames_auto | intros c].
  apply frames_bind; [destruct (_internalTimer c) as [[| h] |]; frames_auto | intros _].
  apply frames_bind; [frames_auto | intros _].
  apply frames_destroyLocalStream.
Qed.

Lemma frames_destroyClient sid :
  (forall e, ok (ClientOff sid e)) -> frames R (destroyClient sid).
Proof.
  intros H. unfold destroyClient, unsubscribeClientEvents. frames_auto.
Qed.

Lemma frames_subscribe sid stream :
  ok (ClientSubscribe sid stream) -> frames R (subscribe sid stream).
Proof. intros H. unfold subscribe. frames_auto. Qed.

Lemma frames_getDevices sid : ok GetDevices -> frames R (getDevices sid).
Proof.
  intros H. unfold getDevices. frames_auto; apply frames_await.
Qed.

Lemma frames_new_AgoraRTCClient :
  (forall sid, ok (CreateClient sid)) -> frames R new_AgoraRTCClient.
Proof.
  intros H. unfold new_AgoraRTCClient. frames_auto.
  intro w. simpl. eapply fr_trans; [apply fr_heap | apply fr_next_client].
Qed.

End SessionFrames.

(** ** Evaluation *)

Lemma upd_same A i (x : A) f : upd i x f i = x.
Proof. unfold upd. now rewrite Nat.eqb_refl. Qed.

Lemma upd_other A i j (x : A) f : j <> i -> upd i x f j = f j.
Proof. unfold upd. intros H. apply Nat.eqb_neq in H. now rewrite H. Qed.

Ltac unfold_monad :=
  unfold exec, bind, ret, throw, gets, modify, this, assign, this_web,
    assign_web, call in *.

Ltac run_sync := repeat (progress (unfold_monad; cbn; rewrite ?upd_same)).

(** [destroy] never fails; what it does to its session and which calls it
    makes. *)
Lemma destroy_session w sid :
  destroy sid w = (Done tt, exec (destroy sid) w) /\
  heap (exec (destroy sid) w) sid =
    with_streamID (Some 0%Z)
      (with_localStream None (with_internalTimer None (heap w sid))) /\
  calls (exec (destroy sid) w) =
    calls w
    ++ match _internalTimer (heap w sid) with
       | Some (S h) => [ClearInterval (S h)]
       | _ => []
       end
    ++ match _localStream (heap w sid) with
       | Some st => teardown_calls sid st
       | None => []
       end.
Proof.
  destruct (heap w sid) as [sv i j p t ls] eqn:Hc.
  unfold destroy, destroyLocalStream, unsubscribeLocalStreamEvents,
    teardown_calls, streamEvents, for_each.
  destruct t as [[| h] |]; destruct ls as [[cfg [|]] |];
    run_sync; rewrite ?Hc; run_sync; rewrite ?Hc; run_sync;
    repeat split; rewrite <- ?app_assoc; rewrite ?app_nil_r; reflexivity.
Qed.

(** ** Scenarios *)

(** ** C2: [destroy] *)

(** C2, as stated, fails: after [destroy] on the session of a client that
    has joined and is publishing, [_init] and [_published] are still true and
    the stream id is 0, not the initial [null]. *)
Lemma destroy_keeps_flags :
  let c := heap (exec (destroy 0) (publishing [])) 0 in
  _init c = true /\ _published c = true /\ client_streamID c = Some 0%Z /\
  ~ at_initial_values c.
Proof.
  vm_compute. repeat split; try reflexivity.
  intros [H _]. discriminate H.
Qed.

(** C2, amended: for every prior state, [destroy] returns normally, clears
    the local stream and the round-trip timer, sets the stream id to 0 and
    leaves [_init], [_joined] and [_published] as they were; a second
    [destroy] changes nothing in the session and makes no call. *)
Theorem destroy_teardown_idempotent (w : World) (sid : nat) :
  let w1 := exec (destroy sid) w in
  let w2 := exec (destroy sid) w1 in
  destroy sid w = (Done tt, w1) /\
  _localStream (heap w1 sid) = None /\
  _internalTimer (heap w1 sid) = None /\
  client_streamID (heap w1 sid) = Some 0%Z /\
  _init (heap w1 sid) = _init (heap w sid) /\
  _joined (heap w1 sid) = _joined (heap w sid) /\
  _published (heap w1 sid) = _published (heap w sid) /\
  heap w2 sid = heap w1 sid /\
  calls w2 = calls w1.
Proof.
  intros w1 w2.
  destruct (destroy_session w sid) as (E & H & _).
  destruct (destroy_session w1 sid) as (_ & H2 & C2).
  fold w1 in E, H. fold w2 in H2, C2.
  rewrite H2, C2, H. cbn. rewrite app_nil_r.
  repeat split; assumption.
Qed.

(** ** C9: [subscribe] *)

(** C9: whatever the remote stream and whatever the SDK answers, [subscribe]
    returns normally after the one SDK call; it touches no session, no
    promise and no coordinator field; the failure callback it hands to the
    SDK is queued when the SDK fails, and running it writes one line to the
    console and does nothing else. *)
Theorem subscribe_failure_only_logged (w : World) (sid stream : nat) :
  let w' := exec (subscribe sid stream) w in
  subscribe sid stream w = (Done tt, w') /\
  calls w' = calls w ++ [ClientSubscribe sid stream] /\
  heap w' = heap w /\ promises w' = promises w /\ web w' = web w /\
  queue w' = match script w with
             | Fails d e :: _ => enqueue (now w + d) (TSubscribeFailed e) (queue w)
             | _ => queue w
             end /\
  forall e w0,
    run_task (TSubscribeFailed e) w0 =
    set_calls (calls w0 ++ [ConsoleLog ("[rtc-client] subscribe failed: " ++ stringify e)%string]) w0.
Proof.
  unfold subscribe, sdk_on_failure, next_reply, setTimeout, run_task.
  destruct (script w) as [| [d | d e | ] rs] eqn:S;
    run_sync; rewrite ?S; run_sync; repeat split; reflexivity.
Qed.
(** ** The coordinator across session methods *)

Ltac trivial_ok := try solve [intros; exact I].

Lemma unpublish_web sid w : web (snd (unpublish sid w)) = web w.
Proof. apply (frames_unpublish (R := same_web)); trivial_ok. Qed.

Lemma leave_web sid w : web (snd (leave sid w)) = web w.
Proof. apply (frames_leave (R := same_web)); trivial_ok. Qed.

Lemma destroy_web sid w : web (snd (destroy sid w)) = web w.
Proof. apply (frames_destroy (R := same_web)); trivial_ok. Qed.

Lemma destroyClient_web sid w : web (snd (destroyClient sid w)) = web w.
Proof. apply (frames_destroyClient (R := same_web)); trivial_ok. Qed.

Lemma destroyClient_done sid w : destroyClient sid w = (Done tt, exec (destroyClient sid) w).
Proof. reflexivity. Qed.

Lemma bind_the_shareClient A (k : nat -> M A) w sid :
  shareClient (web w) = Some sid ->
  bind Web.the_shareClient k w = k sid w.
Proof. intros H. unfold Web.the_shareClient. run_sync. rewrite H. reflexivity. Qed.

Lemma stopScreenShare_eq w sid :
  shareClient (web w) = Some sid ->
  Web.stopScreenShare w =
  match unpublish sid w with
  | (Done _, w1) =>
      match leave sid w1 with
      | (Done _, w2) =>
          (Done tt,
           exec (assign_web (with_shared false))
             (exec (destroyClient sid) (exec (destroy sid) w2)))
      | (Throw e, w2) => (Throw e, w2)
      | (Hang, w2) => (Hang, w2)
      end
  | (Throw e, w1) => (Throw e, w1)
  | (Hang, w1) => (Hang, w1)
  end.
Proof.
  intros H. unfold Web.stopScreenShare.
  rewrite (bind_the_shareClient _ _ H). unfold bind at 1.
  pose proof (unpublish_web sid w) as W1.
  destruct (unpublish sid w) as [[[] | e | ] w1]; simpl in W1; try reflexivity.
  assert (H1 : shareClient (web w1) = Some sid) by (rewrite W1; exact H).
  rewrite (bind_the_shareClient _ _ H1). unfold bind at 1.
  pose proof (leave_web sid w1) as W2.
  destruct (leave sid w1) as [[[] | e | ] w2]; simpl in W2; try reflexivity.
  assert (H2 : shareClient (web w2) = Some sid) by (rewrite W2; exact H1).
  rewrite (bind_the_shareClient _ _ H2). unfold bind at 1.
  destruct (destroy_session w2 sid) as (E & _). rewrite E.
  pose proof (destroy_web sid w2) as W3. fold (exec (destroy sid) w2) in W3.
  assert (H3 : shareClient (web (exec (destroy sid) w2)) = Some sid)
    by (rewrite W3; exact H2).
  rewrite (bind_the_shareClient _ _ H3). unfold bind at 1.
  rewrite destroyClient_done. reflexivity.
Qed.

(** ** C1: [stopScreenShare] *)

(** C1, as stated, fails: with a screen share running, the SDK accepts the
    unpublish and fails the leave of the secondary session; [stopScreenShare]
    rejects with that error and [shared] is still true. *)
Lemma stopScreenShare_leave_failure :
  let w := sharing [Silent; Fails 20 (SdkError "LEAVE_FAILED")] in
  shared (web w) = true /\ shareClient (web w) = Some 1 /\
  fst (Web.stopScreenShare w) = Throw (SdkError "LEAVE_FAILED") /\
  shared (web (exec Web.stopScreenShare w)) = true.
Proof. vm_compute. repeat split. Qed.

(** C1, amended: for every state with a screen-share session, [shared] is
    false after [stopScreenShare] resolves; when the leave of the secondary
    session fails, [stopScreenShare] rejects with the SDK's error and leaves
    [shared] as it was, and so it does whenever it does not resolve. *)
Theorem stopScreenShare_shared_flag (w : World) (sid : nat)
    (Hshare : shareClient (web w) = Some sid) :
  (forall w', Web.stopScreenShare w = (Done tt, w') -> shared (web w') = false) /\
  (forall w1 e w2,
      unpublish sid w = (Done tt, w1) -> leave sid w1 = (Throw e, w2) ->
      Web.stopScreenShare w = (Throw e, w2) /\ shared (web w2) = shared (web w)) /\
  (forall r w', Web.stopScreenShare w = (r, w') -> r <> Done tt ->
                shared (web w') = shared (web w)).
Proof.
  rewrite (stopScreenShare_eq _ Hshare).
  pose proof (unpublish_web sid w) as W1.
  destruct (unpublish sid w) as [r1 w1] eqn:U; simpl in W1.
  pose proof (leave_web sid w1) as W2.
  split; [| split].
  - intros w' E. destruct r1 as [[] | e1 | ]; try discriminate E.
    destruct (leave sid w1) as [[[] | e2 | ] w2]; try discriminate E.
    inversion E. reflexivity.
  - intros w1' e w2' E1 E2. inversion E1; subst r1 w1'.
    rewrite E2 in *. simpl in W2. split; [reflexivity | congruence].
  - intros r w' E N. destruct r1 as [[] | e1 | ].
    + destruct (leave sid w1) as [[[] | e2 | ] w2]; simpl in W2;
        inversion E; subst; congruence.
    + inversion E; subst; congruence.
    + inversion E; subst; congruence.
Qed.

Lemma stopScreenShare_shared_flag_witness :
  let w := sharing [Silent; Fails 20 (SdkError "LEAVE_FAILED")] in
  Web.stopScreenShare w
    = (Throw (SdkError "LEAVE_FAILED"), snd (leave 1 (snd (unpublish 1 w)))) /\
  shared (web (snd (leave 1 (snd (unpublish 1 w))))) = shared (web w).
Proof.
  intros w.
  assert (Hshare : shareClient (web w) = Some 1) by (vm_compute; reflexivity).
  destruct (stopScreenShare_shared_flag w Hshare) as (_ & H & _).
  apply (H (snd (unpublish 1 w)) (SdkError "LEAVE_FAILED")).
  - vm_compute. reflexivity.
  - vm_compute. reflexivity.
Defined.

Lemma bind_the_rtc A (k : nat -> M A) w : bind Web.the_rtc k w = k (rtc (web w)) w.
Proof. reflexivity. Qed.

Lemma bind_bind A B C (m : M A) (f : A -> M B) (g : B -> M C) w :
  bind (bind m f) g w = bind m (fun a => bind (f a) g) w.
Proof. unfold bind. destruct (m w) as [[a | e | ] w1]; reflexivity. Qed.

Lemma leaveChannel_eq w :
  Web.leaveChannel w =
  let r := rtc (web w) in
  match unpublish r (leave_prelude w) with
  | (Done _, w1) =>
      match leave r (set_web (with_web_published false (web w1)) w1) with
      | (Done _, w2) =>
          (Done tt,
           set_web (with_joined false (web w2))
             (exec (destroyClient r) (exec (destroy r) w2)))
      | (Throw e, w2) => (Throw e, w2)
      | (Hang, w2) => (Hang, w2)
      end
  | (Throw e, w1) => (Throw e, w1)
  | (Hang, w1) => (Hang, w1)
  end.
Proof.
  unfold Web.leaveChannel, Web.unpublishLocalStream.
  unfold bind at 1. cbn [assign_web modify].
  unfold bind at 1. cbn [assign_web modify].
  rewrite bind_bind. unfold bind at 1. cbn [call modify].
  rewrite bind_bind. rewrite bind_the_rtc. rewrite bind_bind.
  cbn [web set_web set_calls rtc with_channel with_localUid].
  unfold bind at 1.
  match goal with |- context [unpublish _ ?x] => change x with (leave_prelude w) end.
  cbv zeta.
  pose proof (unpublish_web (rtc (web w)) (leave_prelude w)) as W1.
  destruct (unpublish (rtc (web w)) (leave_prelude w)) as [[[] | e | ] w1];
    simpl in W1; try reflexivity.
  unfold bind at 1. cbn [assign_web modify]. rewrite bind_the_rtc.
  cbn [web set_web rtc with_web_published]. rewrite W1.
  cbn [web set_web rtc with_channel with_localUid leave_prelude set_calls].
  unfold bind at 1.
  set (w1' := set_web _ w1).
  pose proof (leave_web (rtc (web w)) w1') as W2.
  destruct (leave (rtc (web w)) w1') as [[[] | e | ] w2]; simpl in W2; try reflexivity.
  unfold bind at 1.
  destruct (destroy_session w2 (rtc (web w))) as (E & _). rewrite E.
  unfold bind at 1. rewrite destroyClient_done.
  cbn [assign_web modify].
  pose proof (destroy_web (rtc (web w)) w2) as W3.
  pose proof (destroyClient_web (rtc (web w)) (exec (destroy (rtc (web w))) w2)) as W4.
  unfold exec, assign_web, modify in *. rewrite W4, W3. reflexivity.
Qed.

(** *** Step equations

    Evaluation on a symbolic world goes by rewriting with these, one step at
    a time. *)

Lemma bind_ret_eq A B (a : A) (k : A -> M B) w : bind (ret a) k w = k a w.
Proof. reflexivity. Qed.

Lemma bind_gets_eq A B (f : World -> A) (k : A -> M B) w :
  bind (gets f) k w = k (f w) w.
Proof. reflexivity. Qed.

Lemma bind_modify_eq B (f : World -> World) (k : unit -> M B) w :
  bind (modify f) k w = k tt (f w).
Proof. reflexivity. Qed.

Lemma bind_new_promise_eq B (k : nat -> M B) w :
  bind new_promise k w =
  k (next_promise w)
    (set_next_promise (S (next_promise w))
       (set_promises (upd (next_promise w) None (promises w)) w)).
Proof. reflexivity. Qed.

Lemma bind_next_reply_eq B (k : Reply -> M B) w :
  bind next_reply k w =
  match script w with
  | [] => k Silent w
  | r :: rs => k r (set_script rs w)
  end.
Proof. unfold bind, next_reply. destruct (script w); reflexivity. Qed.

Lemma bind_done A B (m : M A) (k : A -> M B) w a w' :
  m w = (Done a, w') -> bind m k w = k a w'.
Proof. intros H. unfold bind. rewrite H. reflexivity. Qed.

Lemma bind_throw A B (m : M A) (k : A -> M B) w e w' :
  m w = (Throw e, w') -> bind m k w = (Throw e, w').
Proof. intros H. unfold bind. rewrite H. reflexivity. Qed.

Lemma bind_hang A B (m : M A) (k : A -> M B) w w' :
  m w = (Hang, w') -> bind m k w = (Hang, w').
Proof. intros H. unfold bind. rewrite H. reflexivity. Qed.

Lemma await_loop_resolved fuel p w v :
  promises w p = Some (Resolved v) -> await_loop fuel p w = (Done v, w).
Proof. intros H. destruct fuel; simpl; rewrite H; reflexivity. Qed.

Lemma await_loop_rejected fuel p w e :
  promises w p = Some (Rejected e) -> await_loop fuel p w = (Throw e, w).
Proof. intros H. destruct fuel; simpl; rewrite H; reflexivity. Qed.

Lemma await_loop_tick fuel p w x q :
  promises w p = None -> queue w = x :: q ->
  await_loop (S fuel) p w = await_loop fuel p (tick w).
Proof. intros H Q. simpl. rewrite H, Q. reflexivity. Qed.

Lemma await_loop_idle fuel p w :
  promises w p = None -> queue w = [] -> await_loop fuel p w = (Hang, w).
Proof. intros H Q. destruct fuel; simpl; rewrite H; try rewrite Q; reflexivity. Qed.

Lemma tick_eq w t k q :
  queue w = (t, k) :: q ->
  tick w = exec (task_body k) (set_now (Nat.max (now w) t) (set_queue q w)).
Proof. intros Q. unfold tick. rewrite Q. reflexivity. Qed.

Lemma settle_pending p s w :
  promises w p = None ->
  settle p s w = (Done tt, set_promises (upd p (Some s) (promises w)) w).
Proof. intros H. unfold settle, modify. rewrite H. reflexivity. Qed.

Lemma settle_settled p s w s0 :
  promises w p = Some s0 -> settle p s w = (Done tt, w).
Proof. intros H. unfold settle, modify. rewrite H. reflexivity. Qed.

Lemma bind_await_eq B p (k : Value -> M B) w :
  bind (await p) k w =
  match await_loop (weight (queue w)) p w with
  | (Done v, w') => k v w'
  | (Throw e, w') => (Throw e, w')
  | (Hang, w') => (Hang, w')
  end.
Proof. reflexivity. Qed.

Ltac flat :=
  cbv beta iota
      delta [APP_ID heap next_client web promises next_promise queue now
             next_handle script sdk_devices calls set_heap set_next_client
             set_web set_promises set_next_promise set_queue set_now
             set_next_handle set_script set_calls fst snd];
  rewrite ?upd_same.

Ltac mstep :=
  first
    [ rewrite bind_ret_eq
    | rewrite bind_gets_eq
    | rewrite bind_modify_eq
    | rewrite bind_new_promise_eq
    | rewrite bind_next_reply_eq
    | rewrite bind_await_eq
    | rewrite bind_bind ];
  flat.

Ltac msteps := repeat mstep.

Lemma leave_quiescent sid w :
  queue w = [] ->
  exists w2,
    leave sid w = (leave_outcome (script w), w2) /\
    heap w2 = heap w /\ web w2 = web w /\ queue w2 = [] /\
    script w2 = tl (script w) /\
    calls w2 = calls w ++ [ClientLeave sid].
Proof.
  destruct w as [app h nc x ps np q t nh sc dv cs]. flat.
  intros Q. subst q.
  unfold leave, sdk_callbacks, setTimeout, call.
  destruct sc as [| [d | d e | ] rs]; msteps; cbn [weight task_weight Nat.add enqueue leave_outcome].
  - rewrite await_loop_idle by (flat; reflexivity). flat.
    eexists; repeat split; reflexivity.
  - rewrite await_loop_tick with (x := (t + d, TResolve np)) (q := []) by (flat; reflexivity).
    rewrite tick_eq with (t := t + d) (k := TResolve np) (q := []) by (flat; reflexivity).
    flat. unfold exec. cbn [task_body].
    rewrite settle_pending by (flat; reflexivity). flat.
    rewrite await_loop_resolved with (v := VUndefined) by (flat; reflexivity).
    eexists; repeat split; reflexivity.
  - rewrite await_loop_tick with (x := (t + d, TReject np e)) (q := []) by (flat; reflexivity).
    rewrite tick_eq with (t := t + d) (k := TReject np e) (q := []) by (flat; reflexivity).
    flat. unfold exec. cbn [task_body].
    rewrite settle_pending by (flat; reflexivity). flat.
    rewrite await_loop_rejected with (e := e) by (flat; reflexivity).
    eexists; repeat split; reflexivity.
  - rewrite await_loop_idle by (flat; reflexivity). flat.
    eexists; repeat split; reflexivity.
Qed.

Lemma unpublish_noop sid w :
  nothing_to_unpublish (heap w sid) = true ->
  exists w1,
    unpublish sid w = (Done tt, w1) /\
    heap w1 = heap w /\ web w1 = web w /\ queue w1 = queue w /\
    script w1 = script w /\ calls w1 = calls w /\ now w1 = now w.
Proof.
  unfold nothing_to_unpublish. intros H. unfold unpublish, await. run_sync. rewrite H. run_sync.
  destruct (weight (queue w)); run_sync; eexists; (split; [reflexivity |]); cbn; auto 10.
Qed.

(** *** Fields across updates *)

Lemma heap_set_heap x w : heap (set_heap x w) = x.
Proof. reflexivity. Qed.
Lemma web_set_heap x w : web (set_heap x w) = web w.
Proof. reflexivity. Qed.
Lemma promises_set_heap x w : promises (set_heap x w) = promises w.
Proof. reflexivity. Qed.
Lemma next_promise_set_heap x w : next_promise (set_heap x w) = next_promise w.
Proof. reflexivity. Qed.
Lemma queue_set_heap x w : queue (set_heap x w) = queue w.
Proof. reflexivity. Qed.
Lemma now_set_heap x w : now (set_heap x w) = now w.
Proof. reflexivity. Qed.
Lemma script_set_heap x w : script (set_heap x w) = script w.
Proof. reflexivity. Qed.
Lemma calls_set_heap x w : calls (set_heap x w) = calls w.
Proof. reflexivity. Qed.
Lemma heap_set_web x w : heap (set_web x w) = heap w.
Proof. reflexivity. Qed.
Lemma web_set_web x w : web (set_web x w) = x.
Proof. reflexivity. Qed.
Lemma promises_set_web x w : promises (set_web x w) = promises w.
Proof. reflexivity. Qed.
Lemma next_promise_set_web x w : next_promise (set_web x w) = next_promise w.
Proof. reflexivity. Qed.
Lemma queue_set_web x w : queue (set_web x w) = queue w.
Proof. reflexivity. Qed.
Lemma now_set_web x w : now (set_web x w) = now w.
Proof. reflexivity. Qed.
Lemma script_set_web x w : script (set_web x w) = script w.
Proof. reflexivity. Qed.
Lemma calls_set_web x w : calls (set_web x w) = calls w.
Proof. reflexivity. Qed.
Lemma heap_set_promises x w : heap (set_promises x w) = heap w.
Proof. reflexivity. Qed.
Lemma web_set_promises x w : web (set_promises x w) = web w.
Proof. reflexivity. Qed.
Lemma promises_set_promises x w : promises (set_promises x w) = x.
Proof. reflexivity. Qed.
Lemma next_promise_set_promises x w : next_promise (set_promises x w) = next_promise w.
Proof. reflexivity. Qed.
Lemma queue_set_promises x w : queue (set_promises x w) = queue w.
Proof. reflexivity. Qed.
Lemma now_set_promises x w : now (set_promises x w) = now w.
Proof. reflexivity. Qed.
Lemma script_set_promises x w : script (set_promises x w) = script w.
Proof. reflexivity. Qed.
Lemma calls_set_promises x w : calls (set_promises x w) = calls w.
Proof. reflexivity. Qed.
Lemma heap_set_next_promise x w : heap (set_next_promise x w) = heap w.
Proof. reflexivity. Qed.
Lemma web_set_next_promise x w : web (set_next_promise x w) = web w.
Proof. reflexivity. Qed.
Lemma promises_set_next_promise x w : promises (set_next_promise x w) = promises w.
Proof. reflexivity. Qed.
Lemma next_promise_set_next_promise x w : next_promise (set_next_promise x w) = x.
Proof. reflexivity. Qed.
Lemma queue_set_next_promise x w : queue (set_next_promise x w) = queue w.
Proof. reflexivity. Qed.
Lemma now_set_next_promise x w : now (set_next_promise x w) = now w.
Proof. reflexivity. Qed.
Lemma script_set_next_promise x w : script (set_next_promise x w) = script w.
Proof. reflexivity. Qed.
Lemma calls_set_next_promise x w : calls (set_next_promise x w) = calls w.
Proof. reflexivity. Qed.
Lemma heap_set_queue x w : heap (set_queue x w) = heap w.
Proof. reflexivity. Qed.
Lemma web_set_queue x w : web (set_queue x w) = web w.
Proof. reflexivity. Qed.
Lemma promises_set_queue x w : promises (set_queue x w) = promises w.
Proof. reflexivity. Qed.
Lemma next_promise_set_queue x w : next_promise (set_queue x w) = next_promise w.
Proof. reflexivity. Qed.
Lemma queue_set_queue x w : queue (set_queue x w) = x.
Proof. reflexivity. Qed.
Lemma now_set_queue x w : now (set_queue x w) = now w.
Proof. reflexivity. Qed.
Lemma script_set_queue x w : script (set_queue x w) = script w.
Proof. reflexivity. Qed.
Lemma calls_set_queue x w : calls (set_queue x w) = calls w.
Proof. reflexivity. Qed.
Lemma heap_set_now x w : heap (set_now x w) = heap w.
Proof. reflexivity. Qed.
Lemma web_set_now x w : web (set_now x w) = web w.
Proof. reflexivity. Qed.
Lemma promises_set_now x w : promises (set_now x w) = promises w.
Proof. reflexivity. Qed.
Lemma next_promise_set_now x w : next_promise (set_now x w) = next_promise w.
Proof. reflexivity. Qed.
Lemma queue_set_now x w : queue (set_now x w) = queue w.
Proof. reflexivity. Qed.
Lemma now_set_now x w : now (set_now x w) = x.
Proof. reflexivity. Qed.
Lemma script_set_now x w : script (set_now x w) = script w.
Proof. reflexivity. Qed.
Lemma calls_set_now x w : calls (set_now x w) = calls w.
Proof. reflexivity. Qed.
Lemma heap_set_script x w : heap (set_script x w) = heap w.
Proof. reflexivity. Qed.
Lemma web_set_script x w : web (set_script x w) = web w.
Proof. reflexivity. Qed.
Lemma promises_set_script x w : promises (set_script x w) = promises w.
Proof. reflexivity. Qed.
Lemma next_promise_set_script x w : next_promise (set_script x w) = next_promise w.
Proof. reflexivity. Qed.
Lemma queue_set_script x w : queue (set_script x w) = queue w.
Proof. reflexivity. Qed.
Lemma now_set_script x w : now (set_script x w) = now w.
Proof. reflexivity. Qed.
Lemma script_set_script x w : script (set_script x w) = x.
Proof. reflexivity. Qed.
Lemma calls_set_script x w : calls (set_script x w) = calls w.
Proof. reflexivity. Qed.
Lemma heap_set_calls x w : heap (set_calls x w) = heap w.
Proof. reflexivity. Qed.
Lemma web_set_calls x w : web (set_calls x w) = web w.
Proof. reflexivity. Qed.
Lemma promises_set_calls x w : promises (set_calls x w) = promises w.
Proof. reflexivity. Qed.
Lemma next_promise_set_calls x w : next_promise (set_calls x w) = next_promise w.
Proof. reflexivity. Qed.
Lemma queue_set_calls x w : queue (set_calls x w) = queue w.
Proof. reflexivity. Qed.
Lemma now_set_calls x w : now (set_calls x w) = now w.
Proof. reflexivity. Qed.
Lemma script_set_calls x w : script (set_calls x w) = script w.
Proof. reflexivity. Qed.
Lemma calls_set_calls x w : calls (set_calls x w) = x.
Proof. reflexivity. Qed.

Create Rewrite HintDb world.
#[export] Hint Rewrite heap_set_heap web_set_heap promises_set_heap next_promise_set_heap : world.
#[export] Hint Rewrite queue_set_heap now_set_heap script_set_heap calls_set_heap : world.
#[export] Hint Rewrite heap_set_web web_set_web promises_set_web next_promise_set_web : world.
#[export] Hint Rewrite queue_set_web now_set_web script_set_web calls_set_web : world.
#[export] Hint Rewrite heap_set_promises web_set_promises promises_set_promises next_promise_set_promises : world.
#[export] Hint Rewrite queue_set_promises now_set_promises script_set_promises calls_set_promises : world.
#[export] Hint Rewrite heap_set_next_promise web_set_next_promise promises_set_next_promise next_promise_set_next_promise : world.
#[export] Hint Rewrite queue_set_next_promise now_set_next_promise script_set_next_promise calls_set_next_promise : world.
#[export] Hint Rewrite heap_set_queue web_set_queue promises_set_queue next_promise_set_queue : world.
#[export] Hint Rewrite queue_set_queue now_set_queue script_set_queue calls_set_queue : world.
#[export] Hint Rewrite heap_set_now web_set_now promises_set_now next_promise_set_now : world.
#[export] Hint Rewrite queue_set_now now_set_now script_set_now calls_set_now : world.
#[export] Hint Rewrite heap_set_script web_set_script promises_set_script next_promise_set_script : world.
#[export] Hint Rewrite queue_set_script now_set_script script_set_script calls_set_script : world.
#[export] Hint Rewrite heap_set_calls web_set_calls promises_set_calls next_promise_set_calls : world.
#[export] Hint Rewrite queue_set_calls now_set_calls script_set_calls calls_set_calls : world.

Ltac frame_await Q :=
  match goal with
  | |- context [await ?p ?W] =>
      let l := fresh "l" in
      let E := fresh "E" in
      let F := fresh "F" in
      destruct (frames_await (R := appends Q) (fun c H => H) p W) as (l & E & F);
      destruct (await p W) as [[? | ? | ] ?]; simpl in *;
      exists l; rewrite E; cbn; rewrite <- ?app_assoc; (split; [reflexivity | exact F])
  end.

Lemma unpublish_calls sid w :
  exists l,
    calls (snd (unpublish sid w)) =
      calls w
      ++ (if nothing_to_unpublish (heap w sid) then []
          else [ClientUnpublish sid (_localStream (heap w sid))])
      ++ l /\
    Forall (fun c => is_task_call c = true) l.
Proof.
  unfold nothing_to_unpublish, unpublish, sdk_on_failure, next_reply, setTimeout.
  destruct (negb (_published (heap w sid))
            || match _localStream (heap w sid) with None => true | Some _ => false end) eqn:N;
    destruct (script w) as [| [d | d e | ] rs] eqn:S;
    run_sync; rewrite ?N, ?S; run_sync; rewrite ?N, ?S; run_sync; rewrite ?app_nil_r;
    frame_await (fun c => is_task_call c = true).
Qed.

Lemma leave_calls sid w :
  exists l, calls (snd (leave sid w)) = calls w ++ ClientLeave sid :: l /\
            Forall (fun c => is_task_call c = true) l.
Proof.
  unfold leave, sdk_callbacks, next_reply, setTimeout.
  destruct (script w) as [| [d | d e | ] rs] eqn:S;
    run_sync; rewrite ?S; run_sync; rewrite ?S; run_sync;
    frame_await (fun c => is_task_call c = true).
Qed.

Lemma destroyClient_calls sid w :
  heap (exec (destroyClient sid) w) = heap w /\
  queue (exec (destroyClient sid) w) = queue w /\
  script (exec (destroyClient sid) w) = script w /\
  calls (exec (destroyClient sid) w) = calls w ++ map (ClientOff sid) clientEvents.
Proof.
  unfold destroyClient, unsubscribeClientEvents. run_sync.
  rewrite <- !app_assoc. repeat split; reflexivity.
Qed.

Lemma destroy_calls sid w :
  exists l, calls (exec (destroy sid) w) = calls w ++ l /\
            Forall (fun c => is_teardown_call c = true) l.
Proof.
  destruct (destroy_session w sid) as (_ & _ & C). rewrite C.
  eexists. split; [reflexivity |].
  apply Forall_app. split.
  - destruct (_internalTimer (heap w sid)) as [[| h] |]; repeat constructor.
  - destruct (_localStream (heap w sid)) as [[cfg [|]] |]; repeat constructor.
Qed.

(** What a completed [leaveChannel] leaves behind. *)
Lemma leaveChannel_done w w' :
  Web.leaveChannel w = (Done tt, w') ->
  let r := rtc (web w) in
  rtc (web w') = r /\
  joined (web w') = false /\ published (web w') = false /\
  _localStream (heap w' r) = None /\ _internalTimer (heap w' r) = None /\
  exists A B,
    calls w' =
      calls w
      ++ ConsoleLog "[smart-client] unpublishStream"
         :: (if nothing_to_unpublish (heap w r) then []
             else [ClientUnpublish r (_localStream (heap w r))])
      ++ A ++ ClientLeave r :: B ++ map (ClientOff r) clientEvents /\
    Forall (fun c => is_task_call c = true) A /\
    Forall (fun c => is_teardown_call c = true) B.
Proof.
  intros Hdone r. rewrite leaveChannel_eq in Hdone. fold r in Hdone. cbv zeta in Hdone.
  pose proof (unpublish_web r (leave_prelude w)) as W1.
  destruct (unpublish_calls r (leave_prelude w)) as (A & CA & FA).
  destruct (unpublish r (leave_prelude w)) as [[[] | e | ] w1]; try discriminate Hdone.
  cbn [fst snd] in W1, CA.
  pose proof (leave_web r (set_web (with_web_published false (web w1)) w1)) as W2.
  destruct (leave_calls r (set_web (with_web_published false (web w1)) w1)) as (L & CL & FL).
  destruct (leave r (set_web (with_web_published false (web w1)) w1)) as [[[] | e | ] w2];
    try discriminate Hdone.
  cbn [fst snd] in W2, CL.
  destruct (destroy_session w2 r) as (_ & HD & _).
  destruct (destroy_calls r w2) as (D & CD & FD).
  destruct (destroyClient_calls r (exec (destroy r) w2)) as (HH & _ & _ & HC).
  remember (exec (destroy r) w2) as E1 eqn:HE1.
  remember (exec (destroyClient r) E1) as E2 eqn:HE2. clear HE1 HE2.
  injection Hdone as Hw'. subst w'.
  unfold leave_prelude in *. autorewrite with world in *.
  rewrite HH, HC, HD, CD, CL, CA, W2, W1.
  repeat split.
  exists A, (L ++ D). split; [| split].
  - rewrite <- !app_assoc. reflexivity.
  - exact FA.
  - apply Forall_app. split; [| exact FD].
    eapply Forall_impl; [| exact FL]. intros c Hc. unfold is_teardown_call.
    rewrite Hc. reflexivity.
Qed.

(** A second [leaveChannel], with no callback pending: nothing is left to
    unpublish, and the outcome is that of the SDK's leave. *)
Lemma leaveChannel_again w r :
  rtc (web w) = r ->
  _localStream (heap w r) = None -> _internalTimer (heap w r) = None ->
  queue w = [] ->
  exists w',
    Web.leaveChannel w = (leave_outcome (script w), w') /\
    calls w' =
      calls w
      ++ ConsoleLog "[smart-client] unpublishStream" :: ClientLeave r
         :: match leave_outcome (script w) with
            | Done _ => map (ClientOff r) clientEvents
            | _ => []
            end.
Proof.
  intros Hr Hs Ht Q. rewrite leaveChannel_eq. rewrite Hr. cbv zeta.
  destruct (@unpublish_noop r (leave_prelude w)) as (u1 & U & Uh & Uw & Uq & Us & Uc & _).
  { unfold nothing_to_unpublish, leave_prelude. autorewrite with world.
    rewrite Hs. apply orb_true_r. }
  rewrite U.
  destruct (@leave_quiescent r (set_web (with_web_published false (web u1)) u1))
    as (u2 & L2 & Lh & Lw & Lq & Ls & Lc).
  { autorewrite with world. rewrite Uq. unfold leave_prelude. autorewrite with world. exact Q. }
  rewrite L2. clear U L2.
  unfold leave_prelude in *. autorewrite with world in *.
  rewrite Us in *. rewrite Uc in Lc. rewrite Uh in Lh.
  destruct (destroy_session u2 r) as (_ & _ & C3). rewrite Lh, Ht, Hs, Lc in C3.
  destruct (destroyClient_calls r (exec (destroy r) u2)) as (_ & _ & _ & C2).
  rewrite C3 in C2.
  remember (exec (destroy r) u2) as E1 eqn:HE1.
  remember (exec (destroyClient r) E1) as E2 eqn:HE2. clear HE1 HE2 C3.
  destruct (script w) as [| [d | d e | ] rs]; cbn [leave_outcome];
    eexists; (split; [reflexivity |]); autorewrite with world.
  - rewrite Lc, <- app_assoc. reflexivity.
  - rewrite C2, app_nil_r, <- !app_assoc. reflexivity.
  - rewrite Lc, <- app_assoc. reflexivity.
  - rewrite Lc, <- app_assoc. reflexivity.
Qed.

(** ** C7: [leaveChannel] *)




(** *** Publish and unpublish, step by step *)

Lemma modify_eq (f : World -> World) w : modify f w = (Done tt, f w).
Proof. reflexivity. Qed.

Lemma ret_eq A (a : A) w : ret a w = (Done a, w).
Proof. reflexivity. Qed.

Ltac mstep ::=
  first
    [ rewrite bind_ret_eq
    | rewrite bind_gets_eq
    | rewrite bind_modify_eq
    | rewrite bind_new_promise_eq
    | rewrite bind_next_reply_eq
    | rewrite bind_await_eq
    | rewrite bind_bind
    | rewrite modify_eq
    | rewrite ret_eq ];
  flat.

Lemma destroyLocalStream_eq sid w :
  destroyLocalStream sid w =
  (Done tt,
   set_heap
     (upd sid (with_streamID (Some 0%Z) (with_localStream None (heap w sid)))
        (upd sid (with_localStream None (heap w sid)) (heap w)))
     (set_calls
        (calls w ++ match _localStream (heap w sid) with
                    | Some st => teardown_calls sid st
                    | None => []
                    end) w)).
Proof.
  destruct w as [app h nc x ps np q t nh sc dv cs]. flat.
  unfold destroyLocalStream, unsubscribeLocalStreamEvents, this, assign, call, teardown_calls.
  rewrite bind_bind. mstep.
  destruct (_localStream (h sid)) as [[cfg pl] |] eqn:Hs.
  - cbn [for_each streamEvents map isPlaying]. unfold call. msteps.
    rewrite Hs. msteps. cbn [isPlaying].
    destruct pl; msteps; rewrite <- !app_assoc; reflexivity.
  - msteps. rewrite Hs. msteps. rewrite app_nil_r. reflexivity.
Qed.

Lemma ltb_shift t a b : Nat.ltb (t + a) (t + b) = negb (Nat.leb b a).
Proof.
  destruct (Nat.ltb_spec (t + a) (t + b)); destruct (Nat.leb_spec b a);
    simpl; try reflexivity; lia.
Qed.

(** One turn of the loop: the awaited promise is pending and the queue has a
    head. *)
Ltac await_tick :=
  erewrite await_loop_tick by (flat; reflexivity);
  erewrite tick_eq by (flat; reflexivity);
  flat; unfold exec; cbn [task_body].

Ltac await_end :=
  first [ erewrite await_loop_resolved by (flat; reflexivity)
        | erewrite await_loop_rejected by (flat; reflexivity)
        | rewrite await_loop_idle by (flat; reflexivity) ];
  flat.

(** What the settle timer of [publish] does, whenever it runs. *)
Lemma publish_timer_runs w t sid p q :
  queue w = (t, TPublishTimer sid p) :: q ->
  heap (tick w) = upd sid (with_published true (heap w sid)) (heap w) /\
  now (tick w) = Nat.max (now w) t /\ queue (tick w) = q /\
  calls (tick w) = calls w /\ web (tick w) = web w.
Proof.
  destruct w as [app h nc x ps np q0 t0 nh sc dv cs]. flat. intros Q. subst q0.
  erewrite tick_eq by (flat; reflexivity). flat. unfold exec. cbn [task_body].
  unfold settle, assign. mstep.
  destruct (ps p); mstep; repeat split; reflexivity.
Qed.

(** What the settle timer of [unpublish] does, whenever it runs. *)
Lemma unpublish_timer_runs w t sid p q :
  queue w = (t, TUnpublishTimer sid p) :: q ->
  _published (heap (tick w) sid) = false /\
  _localStream (heap (tick w) sid) = None /\
  now (tick w) = Nat.max (now w) t /\ queue (tick w) = q /\
  web (tick w) = web w /\
  calls (tick w) =
    calls w ++ match _localStream (heap w sid) with
               | Some st => teardown_calls sid st
               | None => []
               end.
Proof.
  destruct w as [app h nc x ps np q0 t0 nh sc dv cs]. flat. intros Q. subst q0.
  erewrite tick_eq by (flat; reflexivity). flat. unfold exec. cbn [task_body].
  unfold settle, assign. mstep.
  destruct (ps p); (erewrite bind_done by apply destroyLocalStream_eq); flat; mstep;
    repeat split; reflexivity.
Qed.

(** [publish] on a session that is not published, with no callback
    pending. *)
Lemma publish_quiescent sid w :
  queue w = [] -> _published (heap w sid) = false ->
  let p := next_promise w in
  exists w',
    publish sid w = (outcome_of (script w), w') /\
    web w' = web w /\
    calls w' = calls w ++ [ClientPublish sid (_localStream (heap w sid))] /\
    match early_failure (script w) with
    | None =>
        now w' = now w + 300 /\
        heap w' = upd sid (with_published true (heap w sid)) (heap w)
    | Some e =>
        heap w' = heap w /\
        queue w' = [(now w + 300, TPublishTimer sid p)] /\
        now w' = now w + failure_delay (script w)
    end.
Proof.
  destruct w as [app h nc x ps np q t nh sc dv cs]. flat.
  intros Q Hp p. subst q p.
  unfold publish, sdk_on_failure, setTimeout, this, assign, call, outcome_of, early_failure,
    failure_delay.
  mstep. mstep. rewrite Hp. flat. rewrite bind_bind. rewrite bind_bind. mstep.
  rewrite bind_bind.
  destruct sc as [| [d | d e | ] rs]; msteps; cbn [enqueue]; rewrite ?ltb_shift.
  - cbn [weight task_weight Nat.add].
    await_tick. unfold settle, assign. msteps. await_end.
    eexists. split; [reflexivity |]. flat. repeat split; try reflexivity. apply Nat.max_r; lia.
  - cbn [weight task_weight Nat.add].
    await_tick. unfold settle, assign. msteps. await_end.
    eexists. split; [reflexivity |]. flat. repeat split; try reflexivity. apply Nat.max_r; lia.
  - destruct (Nat.leb_spec d 300) as [Hd | Hd]; cbn [negb]; flat;
      cbn [weight task_weight Nat.add].
    + await_tick. unfold settle. msteps. await_end.
      eexists. split; [reflexivity |]. flat. repeat split; try reflexivity.
      apply Nat.max_r; lia.
    + await_tick. unfold settle, assign. msteps. await_end.
      eexists. split; [reflexivity |]. flat. repeat split; try reflexivity.
      apply Nat.max_r; lia.
  - cbn [weight task_weight Nat.add].
    await_tick. unfold settle, assign. msteps. await_end.
    eexists. split; [reflexivity |]. flat. repeat split; try reflexivity. apply Nat.max_r; lia.
Qed.

(** [unpublish] on a published session with a local stream, with no
    callback pending. *)
Lemma unpublish_quiescent sid w st :
  queue w = [] ->
  _published (heap w sid) = true -> _localStream (heap w sid) = Some st ->
  let p := next_promise w in
  exists w',
    unpublish sid w = (outcome_of (script w), w') /\
    web w' = web w /\
    match early_failure (script w) with
    | None =>
        now w' = now w + 300 /\
        _published (heap w' sid) = false /\ _localStream (heap w' sid) = None /\
        calls w' = calls w ++ ClientUnpublish sid (Some st) :: teardown_calls sid st
    | Some e =>
        heap w' = heap w /\
        queue w' = [(now w + 300, TUnpublishTimer sid p)] /\
        now w' = now w + failure_delay (script w) /\
        calls w' = calls w ++ [ClientUnpublish sid (Some st)]
    end.
Proof.
  destruct w as [app h nc x ps np q t nh sc dv cs]. flat.
  intros Q Hp Hs p. subst q p.
  unfold unpublish, sdk_on_failure, setTimeout, this, assign, call, outcome_of, early_failure,
    failure_delay.
  mstep. mstep. rewrite Hp, Hs. cbn [negb orb]. flat.
  rewrite bind_bind. rewrite bind_bind. mstep. rewrite bind_bind.
  assert (Fin : forall fuel (ps' : nat -> option Settled) rs' q',
    ps' np = None ->
    exists w',
      (let (r, w'0) :=
         await_loop (S fuel) np
           {| APP_ID := app; heap := h; next_client := nc; web := x;
              promises := ps'; next_promise := S np;
              queue := (t + 300, TUnpublishTimer sid np) :: q'; now := t;
              next_handle := nh; script := rs'; sdk_devices := dv;
              calls := cs ++ [ClientUnpublish sid (Some st)] |} in
       match r with
       | Done _ => ret tt w'0
       | Throw e => (Throw e, w'0)
       | Hang => (Hang, w'0)
       end) = (Done tt, w') /\
      web w' = x /\ now w' = t + 300 /\
      _published (heap w' sid) = false /\ _localStream (heap w' sid) = None /\
      calls w' = cs ++ ClientUnpublish sid (Some st) :: teardown_calls sid st).
  { intros fuel ps' rs' q' Hps.
    erewrite await_loop_tick by (flat; try reflexivity; exact Hps).
    erewrite tick_eq by (flat; reflexivity).
    flat. unfold exec. cbn [task_body]. unfold settle, assign. mstep. rewrite Hps. flat.
    (erewrite bind_done by apply destroyLocalStream_eq). flat. mstep. rewrite Hs.
    await_end.
    eexists. split; [reflexivity |]. flat. cbn [_published _localStream with_published with_streamID with_localStream].
    repeat split; try reflexivity.
    - apply Nat.max_r; lia.
    - rewrite <- app_assoc. reflexivity. }
  destruct sc as [| [d | d e | ] rs]; msteps; cbn [enqueue]; rewrite ?ltb_shift.
  - cbn [weight task_weight Nat.add].
    destruct (Fin 0 (upd np None ps) [] [] (upd_same _ _ _)) as (w' & E & H1 & H2 & H3 & H4 & H5).
    exists w'. split; [exact E |]. repeat split; assumption.
  - cbn [weight task_weight Nat.add].
    destruct (Fin 0 (upd np None ps) rs [] (upd_same _ _ _)) as (w' & E & H1 & H2 & H3 & H4 & H5).
    exists w'. split; [exact E |]. repeat split; assumption.
  - destruct (Nat.leb_spec d 300) as [Hd | Hd]; cbn [negb]; flat;
      cbn [weight task_weight Nat.add].
    + await_tick. unfold settle. msteps. await_end.
      eexists. split; [reflexivity |]. flat. repeat split; try reflexivity.
      apply Nat.max_r; lia.
    + destruct (Fin 1 (upd np None ps) rs [(t + d, TReject np e)] (upd_same _ _ _))
        as (w' & E & H1 & H2 & H3 & H4 & H5).
      exists w'. split; [exact E |]. repeat split; assumption.
  - cbn [weight task_weight Nat.add].
    destruct (Fin 0 (upd np None ps) rs [] (upd_same _ _ _)) as (w' & E & H1 & H2 & H3 & H4 & H5).
    exists w'. split; [exact E |]. repeat split; assumption.
Qed.

Lemma early_failure_delay sdk e :
  early_failure sdk = Some e -> failure_delay sdk <= 300.
Proof.
  destruct sdk as [| [d | d e' | ] rs]; simpl; try discriminate.
  destruct (Nat.leb_spec d 300); [intros _; assumption | discriminate].
Qed.

(** [publish] on a published session: nothing but a settled promise. *)
Lemma publish_noop sid w :
  _published (heap w sid) = true ->
  exists w',
    publish sid w = (Done tt, w') /\
    heap w' = heap w /\ web w' = web w /\ queue w' = queue w /\
    script w' = script w /\ calls w' = calls w /\ now w' = now w.
Proof.
  destruct w as [app h nc x ps np q t nh sc dv cs]. flat. intros Hp.
  unfold publish, this, settle. mstep. mstep. rewrite Hp. flat. mstep. mstep.
  await_end. mstep. eexists. repeat split; reflexivity.
Qed.

(** ** C5: [publish] *)




(** ** C6: [unpublish] *)



(** ** C10: the settle timer after a rejection *)



(** ** The coordinator's methods across frames *)

Ltac session_frame :=
  lazymatch goal with
  | |- frames _ (await _) => apply frames_await
  | |- frames _ (initClient _ _) => apply frames_initClient
  | |- frames _ (createClient _ _ _) => apply frames_createClient
  | |- frames _ (publish _) => apply frames_publish
  | |- frames _ (unpublish _) => apply frames_unpublish
  | |- frames _ (enableDualStream _) => apply frames_enableDualStream
  | |- frames _ (createLocalStream _ _) => apply frames_createLocalStream
  | |- frames _ (join _ _ _) => apply frames_join
  | |- frames _ (leave _) => apply frames_leave
  | |- frames _ (destroy _) => apply frames_destroy
  | |- frames _ (destroyClient _) => apply frames_destroyClient
  | |- frames _ (subscribe _ _) => apply frames_subscribe
  | |- frames _ (getDevices _) => apply frames_getDevices
  | |- frames _ new_AgoraRTCClient => apply frames_new_AgoraRTCClient
  end.

Ltac web_unfold :=
  progress
    unfold Web.getDevices, Web.joinChannel, Web.leaveChannel, Web.unpublishLocalStream,
      Web.enableDualStream, Web.publishLocalStream, Web.startScreenShare,
      Web.stopScreenShare, Web.exit, Web.createPreviewStream, Web.subscribe,
      Web.setRemoteVideoStreamType, Web.the_rtc, Web.the_shareClient,
      setRemoteVideoStreamType.

Ltac web_frames := repeat first [ frames_step | session_frame | web_unfold ].

(** No method other than [startScreenShare] assigns [shareClient] or raises
    [shared], and no callback does. *)
Lemma op_keeps_share o w : o <> OpStartScreenShare -> keeps_share w (run_op o w).
Proof.
  intros N. destruct o; try congruence; unfold run_op, exec;
    try (match goal with
         | |- keeps_share _ (snd (?m _)) => generalize w; change (frames keeps_share m)
         end;
         web_frames; try solve [intros; exact I];
         solve [split; [reflexivity | simpl; intros; try discriminate; assumption]]).
  apply frames_tick. intros; exact I.
Qed.

Lemma raises_shared_bind A (m : M A) (f : A -> M unit) :
  frames same_web m -> (forall a, raises_shared (f a)) -> raises_shared (bind m f).
Proof.
  intros Hm Hf w. unfold bind. specialize (Hm w). unfold same_web in Hm.
  destruct (m w) as [[a | e | ] w1]; cbn [fst snd] in *.
  - destruct (Hf a w1) as [H1 H2]. rewrite Hm in H1, H2. split; [exact H1 |].
    destruct (fst (f a w1)); exact H2.
  - rewrite Hm. split; reflexivity.
  - rewrite Hm. split; reflexivity.
Qed.

Lemma raises_shared_assign : raises_shared (assign_web (with_shared true)).
Proof. intros w. split; reflexivity. Qed.

(** [startScreenShare] assigns the new session first, and raises [shared]
    last, when every step before has resolved. *)
Lemma startScreenShare_flag w :
  shareClient (web (snd (Web.startScreenShare w))) = Some (next_client w) /\
  match fst (Web.startScreenShare w) with
  | Done _ => shared (web (snd (Web.startScreenShare w))) = true
  | _ => shared (web (snd (Web.startScreenShare w))) = shared (web w)
  end.
Proof.
  assert (T : raises_shared
            (s1 <- Web.the_shareClient ;;
             createLocalStream s1 screen_spec ;;
             s2 <- Web.the_shareClient ;;
             appId <- gets APP_ID ;;
             createClient s2 appId false ;;
             s3 <- Web.the_shareClient ;;
             x <- this_web ;;
             join s3 SHARE_ID (channel x) ;;
             s4 <- Web.the_shareClient ;;
             publish s4 ;;
             assign_web (with_shared true))).
  { unfold Web.the_shareClient.
    repeat first
      [ apply raises_shared_assign
      | apply raises_shared_bind;
        [ repeat first [frames_step | session_frame]; try solve [intros; exact I] | intros ? ] ]. }
  unfold Web.startScreenShare, new_AgoraRTCClient.
  rewrite bind_bind, bind_gets_eq. cbv beta.
  rewrite bind_bind, bind_modify_eq. cbv beta.
  unfold call at 1. rewrite bind_bind, bind_modify_eq, bind_ret_eq. cbv beta.
  unfold assign_web at 1. rewrite bind_modify_eq.
  match goal with |- context [snd (_ ?W)] => set (w0 := W) end.
  fold screen_spec. specialize (T w0).
  destruct T as [T1 T2]. split.
  - rewrite T1. reflexivity.
  - exact T2.
Qed.

(** ** C8: the [shared] flag *)


Lemma run_keeps_invariant ops w :
  (shared (web w) = true -> shareClient (web w) <> None) ->
  shared (web (run ops w)) = true -> shareClient (web (run ops w)) <> None.
Proof.
  revert w. induction ops as [| o ops IH]; intros w I; [exact I |].
  unfold run. cbn [fold_left]. apply IH.
  destruct o;
    try (match goal with
         | |- context [run_op ?o w] =>
             destruct (@op_keeps_share o w) as [K1 K2]; [discriminate |]
         end;
         intros S; rewrite K1; apply I, K2, S).
  intros _. unfold run_op, exec.
  destruct (startScreenShare_flag w) as [H _]. rewrite H. discriminate.
Qed.



(** ** C4: the identifier of the screen share *)

#[export] Instance same_localUid_framing : Framing same_localUid (fun _ => True).
Proof. constructor; unfold same_localUid; intros; simpl; congruence. Qed.

(** [joinChannel] records the uid, whatever happens next. *)
Lemma joinChannel_localUid uid chan dual w :
  localUid (web (exec (Web.joinChannel uid chan dual) w)) = uid.
Proof.
  unfold exec, Web.joinChannel. unfold assign_web at 1. rewrite bind_modify_eq.
  match goal with
  | |- localUid (web (snd (?m ?W))) = _ =>
      assert (F : frames same_localUid m)
  end.
  { web_frames; try solve [intros; exact I]; reflexivity. }
  rewrite F. reflexivity.
Qed.

Lemma startScreenShare_calls w :
  appends uses_share_id w (snd (Web.startScreenShare w)).
Proof.
  generalize w. change (frames (appends uses_share_id) Web.startScreenShare).
  web_frames;
    try solve [ intros; intros i H; simpl in H; try discriminate H;
                injection H as <-; reflexivity ];
    try solve [ intros c H; destruct c; simpl in H; try discriminate H;
                intros i H'; discriminate H' ].
Qed.




(** ** C3: the audio output of [createLocalStream] *)

(** C3 fails on the code: the spec carries an audio-output device, the SDK
    initialises the stream and then fails to apply the device.
    [createLocalStream] has resolved by then: it resolves as soon as the
    stream is initialised, the answer of [setAudioOutput] still pending, and
    the later rejection is lost. *)
Lemma createLocalStream_ignores_audio_output_failure :
  let w := run [OpJoinChannel 42 "room1" false]
             (initial "app"
                [Succeeds 5; Succeeds 10; Succeeds 3;
                 Fails 20 (SdkError "AUDIO_OUTPUT_FAILED")] []) in
  let w' := exec (createLocalStream 0 camera_with_speaker) w in
  fst (createLocalStream 0 camera_with_speaker w) = Done tt /\
  now w' = now w + 3 /\
  skipn (List.length (calls w)) (calls w') =
    [CreateStream (OfSpec (mirror_off camera_with_speaker));
     ConsoleLog "[smart-client] _localStream ";
     StreamInit (OfSpec (mirror_off camera_with_speaker))]
    ++ map (StreamOn 0) streamEvents ++ [ClientSetAudioOutput 0 "speaker-1"] /\
  queue w' = [(now w + 23, TReject (next_promise w) (SdkError "AUDIO_OUTPUT_FAILED"))] /\
  promises (tick w') (next_promise w) = Some (Resolved VUndefined).
Proof. vm_compute. repeat split. Qed.

(** * Further properties of the session *)

(** ** [initClient] *)

(** X1: [initClient] on an initialised session returns at once and leaves
    the world as it is: no SDK call, no promise.  Otherwise, with no
    callback pending, it calls the SDK's init once and follows its answer:
    on success [_init] is set and one line is written to the console; on
    failure it throws the SDK's error, and when the SDK stays silent it
    hangs, [_init] still false in both cases, so that a later call tries the
    SDK again. *)
Theorem initClient_contract (w : World) (sid : nat) (appId : string) :
  if _init (heap w sid) then initClient sid appId w = (Done tt, w)
  else
    queue w = [] ->
    exists w',
      initClient sid appId w = (leave_outcome (script w), w') /\
      web w' = web w /\
      match leave_outcome (script w) with
      | Done _ =>
          _init (heap w' sid) = true /\
          calls w' = calls w ++ [ClientInit sid appId;
                                 ConsoleLog "[smart-client] init client"]
      | _ =>
          heap w' = heap w /\ calls w' = calls w ++ [ClientInit sid appId]
      end.
Proof.
  destruct (_init (heap w sid)) eqn:Hi.
  - unfold initClient, this. rewrite bind_gets_eq. rewrite Hi. reflexivity.
  - revert Hi. destruct w as [app h nc x ps np q t nh sc dv cs]. flat.
    intros Hi Q. subst q.
    unfold initClient, sdk_callbacks, setTimeout, this, call.
    mstep. rewrite Hi. flat.
    destruct sc as [| [d | d e | ] rs]; msteps;
      cbn [weight task_weight Nat.add enqueue leave_outcome].
    + await_end. eexists. repeat split; reflexivity.
    + await_tick. unfold assign, settle. msteps. await_end. msteps.
      eexists. split; [reflexivity |]. flat. rewrite <- app_assoc.
      repeat split; reflexivity.
    + await_tick. unfold settle. msteps. await_end.
      eexists. repeat split; reflexivity.
    + await_end. eexists. repeat split; reflexivity.
Qed.

Lemma initClient_contract_witness :
  exists w',
    initClient 0 "app" (initial "app" [Fails 4 (SdkError "INIT_FAILED")] [])
      = (Throw (SdkError "INIT_FAILED"), w') /\
    heap w' = heap (initial "app" [Fails 4 (SdkError "INIT_FAILED")] []).
Proof.
  pose proof (initClient_contract
                (initial "app" [Fails 4 (SdkError "INIT_FAILED")] []) 0 "app") as H.
  cbn [initial heap fresh_client _init] in H.
  destruct (H eq_refl) as (w' & E & _ & Hh & _).
  exists w'. split; [exact E | exact Hh].
Defined.

(** ** The promisified calls *)

(** X2: [join], [leave], [enableDualStream] and [setAudioOutput] are thin
    wraps: with no callback pending each makes its one SDK call and follows
    the SDK's answer, resolving on success, throwing the SDK's error
    unchanged on failure and hanging when the SDK stays silent; none touches
    a session or the coordinator ([join] does not even set [_joined]). *)
Theorem promisified_calls_follow_the_sdk (w : World) (sid : nat) (uid : Z)
    (chan speakerId : string) (Hquiet : queue w = []) :
  (exists w', join sid uid chan w = (leave_outcome (script w), w') /\
              heap w' = heap w /\ web w' = web w /\
              calls w' = calls w ++ [ClientJoin sid chan uid]) /\
  (exists w', leave sid w = (leave_outcome (script w), w') /\
              heap w' = heap w /\ web w' = web w /\
              calls w' = calls w ++ [ClientLeave sid]) /\
  (exists w', enableDualStream sid w = (leave_outcome (script w), w') /\
              heap w' = heap w /\ web w' = web w /\
              calls w' = calls w ++ [ClientEnableDualStream sid]) /\
  (exists w', setAudioOutput sid speakerId w = (leave_outcome (script w), w') /\
              heap w' = heap w /\ web w' = web w /\
              calls w' = calls w ++ [ClientSetAudioOutput sid speakerId]).
Proof.
  revert Hquiet. destruct w as [app h nc x ps np q t nh sc dv cs]. flat.
  intros Q. subst q.
  unfold join, leave, enableDualStream, setAudioOutput, sdk_callbacks, setTimeout, call.
  repeat split;
    (destruct sc as [| [d | d e | ] rs]; msteps;
     cbn [weight task_weight Nat.add enqueue leave_outcome];
     [ await_end
     | await_tick; unfold settle; msteps; await_end; msteps
     | await_tick; unfold settle; msteps; await_end
     | await_end ];
     eexists; repeat split; reflexivity).
Qed.

Lemma promisified_calls_follow_the_sdk_witness :
  exists w',
    join 0 42 "room1" (initial "app" [Fails 3 (SdkError "JOIN_FAILED")] [])
      = (Throw (SdkError "JOIN_FAILED"), w').
Proof.
  destruct (@promisified_calls_follow_the_sdk
              (initial "app" [Fails 3 (SdkError "JOIN_FAILED")] []) 0 42 "room1" ""
              eq_refl) as ((w' & E & _) & _).
  exists w'. exact E.
Defined.

(** ** [destroyLocalStream] *)

(** X3: [destroyLocalStream] never fails.  With a local stream it removes
    the six stream listeners, stops the stream if and only if it is playing,
    and closes it, in this order; with none it makes no call.  Either way
    the session's stream reference is cleared and its stream id set to 0,
    and nothing else in the session changes. *)
Theorem destroyLocalStream_contract (w : World) (sid : nat) :
  exists w',
    destroyLocalStream sid w = (Done tt, w') /\
    heap w' sid =
      with_streamID (Some 0%Z) (with_localStream None (heap w sid)) /\
    web w' = web w /\ queue w' = queue w /\
    calls w' =
      calls w
      ++ match _localStream (heap w sid) with
         | Some st =>
             map (StreamRemoveEventListener sid) streamEvents
             ++ (if isPlaying st then [StreamStop sid] else [])
             ++ [StreamClose sid]
         | None => []
         end.
Proof.
  rewrite destroyLocalStream_eq. eexists. split; [reflexivity |].
  autorewrite with world. rewrite upd_same. repeat split; reflexivity.
Qed.

(** ** [createClient] on a session that is already connected *)

Lemma createClient_initialised sid appId rtt w :
  _init (heap w sid) = true ->
  createClient sid appId rtt w =
  (Done tt,
   if rtt then
     set_heap (upd sid (with_internalTimer (Some (next_handle w)) (heap w sid)) (heap w))
       (set_calls (calls w ++ map (ClientOn sid) clientEvents
                   ++ [SetInterval (next_handle w) 100])
          (set_next_handle (S (next_handle w)) w))
   else set_calls (calls w ++ map (ClientOn sid) clientEvents) w).
Proof.
  destruct w as [app h nc x ps np q t nh sc dv cs]. flat. intros Hi.
  unfold createClient, initClient, subscribeClientEvents, clientEvents, this, assign.
  rewrite bind_bind. mstep. rewrite Hi. flat. mstep.
  cbn [for_each map]. unfold call. msteps.
  destruct rtt; msteps; rewrite <- !app_assoc; reflexivity.
Qed.

(** X4: [createClient] on an initialised session does not call the SDK's
    init again, but registers the ten client handlers once more; with
    round-trip monitoring it starts a new interval and overwrites
    [_internalTimer]: the handle of an interval that was running is dropped,
    and a later [destroy] clears the new interval only, never the old one. *)
Theorem createClient_drops_running_timer (w : World) (sid : nat) (appId : string)
    (h : nat) (Hinit : _init (heap w sid) = true)
    (Htimer : _internalTimer (heap w sid) = Some h)
    (Hfresh : h <> next_handle w) :
  let w1 := exec (createClient sid appId true) w in
  let w2 := exec (destroy sid) w1 in
  createClient sid appId true w = (Done tt, w1) /\
  _internalTimer (heap w1 sid) = Some (next_handle w) /\
  calls w1 = calls w ++ map (ClientOn sid) clientEvents
             ++ [SetInterval (next_handle w) 100] /\
  exists l,
    calls w2 = calls w1 ++ l /\ ~ In (ClearInterval h) l /\
    (next_handle w <> 0 -> In (ClearInterval (next_handle w)) l).
Proof.
  intros w1 w2.
  pose proof (@createClient_initialised sid appId true w Hinit) as E.
  assert (E1 : w1 = snd (createClient sid appId true w)) by reflexivity.
  rewrite E in E1. cbn [snd] in E1.
  assert (T : _internalTimer (heap w1 sid) = Some (next_handle w)).
  { rewrite E1. autorewrite with world. rewrite upd_same. reflexivity. }
  assert (S1 : _localStream (heap w1 sid) = _localStream (heap w sid)).
  { rewrite E1. autorewrite with world. rewrite upd_same. reflexivity. }
  assert (C1 : calls w1 = calls w ++ map (ClientOn sid) clientEvents
                          ++ [SetInterval (next_handle w) 100]).
  { rewrite E1. autorewrite with world. reflexivity. }
  split; [rewrite E, E1; reflexivity |].
  split; [exact T |]. split; [exact C1 |].
  destruct (destroy_session w1 sid) as (_ & _ & C). fold w2 in C.
  clearbody w2. clear E E1. clearbody w1.
  rewrite T, S1 in C.
  eexists. split; [exact C |]. split.
  - intros I. apply in_app_or in I. destruct I as [I | I].
    + destruct (next_handle w); [exact I |].
      destruct I as [I | []]. injection I as I. apply Hfresh. symmetry. exact I.
    + destruct (_localStream (heap w sid)) as [st |]; [| exact I].
      unfold teardown_calls in I.
      apply in_app_or in I. destruct I as [I | I].
      * apply in_map_iff in I. destruct I as (e & I & _). discriminate I.
      * apply in_app_or in I. destruct I as [I | I].
        -- destruct (isPlaying st); [destruct I as [I | []]; discriminate I | exact I].
        -- destruct I as [I | []]. discriminate I.
  - intros N. apply in_or_app. left.
    destruct (next_handle w); [congruence | left; reflexivity].
Qed.

Lemma createClient_drops_running_timer_witness :
  let w := run [OpJoinChannel 42 "room1" false]
             (initial "app" [Succeeds 5; Succeeds 10] []) in
  _internalTimer (heap w 0) = Some 1 /\
  _internalTimer (heap (exec (createClient 0 "app" true) w) 0) = Some 2 /\
  exists l,
    calls (exec (destroy 0) (exec (createClient 0 "app" true) w))
      = calls (exec (createClient 0 "app" true) w) ++ l /\
    ~ In (ClearInterval 1) l.
Proof.
  intros w.
  assert (Hinit : _init (heap w 0) = true) by (vm_compute; reflexivity).
  assert (Htimer : _internalTimer (heap w 0) = Some 1) by (vm_compute; reflexivity).
  assert (Hfresh : 1 <> next_handle w) by (vm_compute; discriminate).
  destruct (@createClient_drops_running_timer w 0 "app" 1 Hinit Htimer Hfresh)
    as (_ & H1 & _ & l & H2 & H3 & _).
  split; [exact Htimer |]. split; [exact H1 |].
  exists l. split; [exact H2 | exact H3].
Defined.

(** ** [createLocalStream] *)

Lemma createLocalStream_quiescent sid data w :
  queue w = [] ->
  let cfg := OfSpec (mirror_off data) in
  let c := with_localStream (Some {| config := cfg; isPlaying := false |}) (heap w sid) in
  exists w',
    createLocalStream sid data w = (leave_outcome (script w), w') /\
    web w' = web w /\
    match script w with
    | Succeeds d :: _ =>
        (forall j, heap w' j = if Nat.eqb j sid
                               then with_streamID (Some (streamID data)) c
                               else heap w j) /\
        now w' = now w + d /\
        calls w' = calls w
          ++ [CreateStream cfg; ConsoleLog "[smart-client] _localStream ";
              StreamInit cfg]
          ++ map (StreamOn sid) streamEvents
          ++ match audioOutputDevice data with
             | Some speakerId => [ClientSetAudioOutput sid speakerId]
             | None => []
             end
    | _ =>
        (forall j, heap w' j = if Nat.eqb j sid then c else heap w j) /\
        calls w' = calls w
          ++ [CreateStream cfg; ConsoleLog "[smart-client] _localStream ";
              StreamInit cfg]
    end.
Proof.
  intros Hquiet cfg c. subst c cfg.
  revert Hquiet. destruct w as [ap h nc x ps np q t nh sc dv cs]. flat.
  intros Q. subst q.
  unfold createLocalStream, sdk_callbacks, setTimeout, call, assign, this.
  destruct sc as [| [d | d e | ] rs]; msteps;
    cbn [weight task_weight Nat.add enqueue leave_outcome].
  - await_end. eexists. split; [reflexivity |]. flat.
    rewrite <- !app_assoc. repeat split; reflexivity.
  - await_tick.
    unfold subscribeLocalStreamEvents, streamEvents, sdk_callbacks, setTimeout,
      call, assign, this, settle.
    msteps. cbn [_localStream with_streamID with_localStream for_each].
    msteps.
    destruct (audioOutputDevice data) as [sp |];
      [destruct rs as [| [d2 | d2 e2 | ] rs2] |];
      msteps; await_end; msteps;
      (eexists; split; [reflexivity |]; flat;
       rewrite <- !app_assoc;
       repeat split; try reflexivity;
       [ intros j; unfold upd; destruct (Nat.eqb j sid); reflexivity
       | rewrite Nat.max_r by lia; reflexivity ]).
  - await_tick. unfold settle. msteps. await_end.
    eexists. split; [reflexivity |]. flat.
    rewrite <- !app_assoc. repeat split; reflexivity.
  - await_end. eexists. split; [reflexivity |]. flat.
    rewrite <- !app_assoc. repeat split; reflexivity.
Qed.

(** X5: [createLocalStream] in a quiet world.  The new stream replaces
    [_localStream] before the SDK is asked to initialise it, and a stream
    held before is neither stopped nor closed.  The outcome is that of the
    initialisation alone: once the stream is initialised the promise is
    resolved, whether the spec names an audio-output device or not and
    whatever the SDK answers to [setAudioOutput]; [streamID] is assigned
    only then.  If the initialisation fails, the SDK's error is thrown and
    the session keeps the stream that was not initialised. *)
Theorem createLocalStream_contract (w : World) (sid : nat) (data : AgoraStreamSpec)
    (Hquiet : queue w = []) :
  let cfg := OfSpec (mirror_off data) in
  exists w',
    createLocalStream sid data w = (leave_outcome (script w), w') /\
    _localStream (heap w' sid) = Some {| config := cfg; isPlaying := false |} /\
    web w' = web w /\
    match script w with
    | Succeeds d :: _ =>
        client_streamID (heap w' sid) = Some (streamID data) /\
        now w' = now w + d /\
        calls w' = calls w
          ++ [CreateStream cfg; ConsoleLog "[smart-client] _localStream ";
              StreamInit cfg]
          ++ map (StreamOn sid) streamEvents
          ++ match audioOutputDevice data with
             | Some speakerId => [ClientSetAudioOutput sid speakerId]
             | None => []
             end
    | _ =>
        client_streamID (heap w' sid) = client_streamID (heap w sid) /\
        calls w' = calls w
          ++ [CreateStream cfg; ConsoleLog "[smart-client] _localStream ";
              StreamInit cfg]
    end.
Proof.
  intros cfg.
  destruct (@createLocalStream_quiescent sid data w Hquiet) as (w' & E & Hx & H).
  exists w'. split; [exact E |].
  destruct (script w) as [| [d | d e | ] rs].
  - destruct H as (Hh & Hc). rewrite (Hh sid), Nat.eqb_refl.
    repeat split; assumption.
  - destruct H as (Hh & Hn & Hc). rewrite (Hh sid), Nat.eqb_refl.
    repeat split; assumption.
  - destruct H as (Hh & Hc). rewrite (Hh sid), Nat.eqb_refl.
    repeat split; assumption.
  - destruct H as (Hh & Hc). rewrite (Hh sid), Nat.eqb_refl.
    repeat split; assumption.
Qed.

Lemma createLocalStream_contract_witness :
  exists w',
    createLocalStream 0 camera_with_speaker
      (initial "app" [Succeeds 3; Fails 20 (SdkError "AUDIO_OUTPUT_FAILED")] [])
      = (Done tt, w') /\
    client_streamID (heap w' 0) = Some (streamID camera_with_speaker).
Proof.
  destruct (@createLocalStream_contract
              (initial "app" [Succeeds 3; Fails 20 (SdkError "AUDIO_OUTPUT_FAILED")] [])
              0 camera_with_speaker eq_refl) as (w' & E & _ & _ & S & _).
  exists w'. split; [exact E | exact S].
Defined.

(** ** [publishLocalStream] on a session that is still marked published *)

(** X6: The session's [_published] can be true while the coordinator's
    [published] is false: a publish rejected by an early SDK failure leaves
    the coordinator's flag down, and the timer raises the session's flag all
    the same.  From such a state, with no callback pending and a stream
    initialisation that succeeds, [publishLocalStream] completes and raises
    [published] without calling the SDK's publish: the new stream replaces
    the previous one, which is not closed, and is only created and
    initialised. *)
Theorem publishLocalStream_skips_publish (w : World) (data : AgoraStreamSpec)
    (d : nat) (rest : list Reply)
    (Hquiet : queue w = []) (Hflag : published (web w) = false)
    (Hpub : _published (heap w (rtc (web w))) = true)
    (Hsdk : script w = Succeeds d :: rest) :
  let r := rtc (web w) in
  let cfg := OfSpec (mirror_off data) in
  exists w',
    Web.publishLocalStream data w = (Done tt, w') /\
    published (web w') = true /\
    _localStream (heap w' r) = Some {| config := cfg; isPlaying := false |} /\
    calls w' = calls w
      ++ [ConsoleLog " publish local stream "; CreateStream cfg;
          ConsoleLog "[smart-client] _localStream "; StreamInit cfg]
      ++ map (StreamOn r) streamEvents
      ++ match audioOutputDevice data with
         | Some speakerId => [ClientSetAudioOutput r speakerId]
         | None => []
         end.
Proof.
  intros r cfg. subst r cfg.
  unfold Web.publishLocalStream, call, assign_web, this_web.
  rewrite bind_modify_eq. cbv beta.
  match goal with |- context [bind (gets web) _ ?W] => set (w0 := W) end.
  assert (W0 : web w0 = web w) by reflexivity.
  assert (H0 : heap w0 = heap w) by reflexivity.
  assert (Q0 : queue w0 = []) by exact Hquiet.
  assert (S0 : script w0 = Succeeds d :: rest) by exact Hsdk.
  assert (C0 : calls w0 = calls w ++ [ConsoleLog " publish local stream "]) by reflexivity.
  clearbody w0.
  rewrite bind_gets_eq, W0, Hflag, bind_ret_eq, bind_the_rtc, W0.
  destruct (@createLocalStream_quiescent (rtc (web w)) data w0 Q0) as (w1 & E1 & X1 & H1).
  rewrite S0 in E1, H1. cbn [leave_outcome] in E1. destruct H1 as (Hh1 & _ & C1).
  erewrite bind_done by exact E1.
  assert (P1 : _published (heap w1 (rtc (web w))) = true).
  { rewrite (Hh1 (rtc (web w))), Nat.eqb_refl, H0. cbn [_published with_streamID with_localStream].
    exact Hpub. }
  destruct (@publish_noop (rtc (web w)) w1 P1) as (w2 & E2 & Hh2 & X2 & _ & _ & C2 & _).
  erewrite bind_done by exact E2.
  rewrite modify_eq. eexists. split; [reflexivity |].
  autorewrite with world. rewrite Hh2, C2, C1, C0, (Hh1 (rtc (web w))), Nat.eqb_refl.
  rewrite <- !app_assoc. repeat split; reflexivity.
Qed.

Lemma publishLocalStream_skips_publish_witness :
  let w := run [OpJoinChannel 42 "room1" false; OpPublishLocalStream camera; OpTick]
             (initial "app"
                [Succeeds 5; Succeeds 10; Succeeds 3;
                 Fails 100 (SdkError "PUBLISH_FAILED"); Succeeds 4] []) in
  published (web w) = false /\ _published (heap w 0) = true /\
  exists w', Web.publishLocalStream camera w = (Done tt, w') /\
             published (web w') = true.
Proof.
  intros w.
  assert (Hquiet : queue w = []) by (vm_compute; reflexivity).
  assert (Hflag : published (web w) = false) by (vm_compute; reflexivity).
  assert (Hpub : _published (heap w (rtc (web w))) = true) by (vm_compute; reflexivity).
  assert (Hsdk : script w = Succeeds 4 :: []) by (vm_compute; reflexivity).
  split; [exact Hflag |]. split; [exact Hpub |].
  destruct (@publishLocalStream_skips_publish w camera 4 [] Hquiet Hflag Hpub Hsdk)
    as (w' & E & P & _).
  exists w'. split; [exact E | exact P].
Defined.

(** ** The session's [exit] *)

(** X7: The session's [exit] in a quiet world: the outcome is that of the
    SDK's leave.  Only when the leave succeeds is the session destroyed (its
    interval cleared, its stream stopped if it plays and closed); when the
    leave fails or is never answered, nothing is torn down and the session
    is left as it was.  The client's handlers are not removed in either
    case. *)
Theorem exit_contract (w : World) (sid : nat) (Hquiet : queue w = []) :
  exists w',
    exit sid w = (leave_outcome (script w), w') /\
    web w' = web w /\
    match leave_outcome (script w) with
    | Done _ =>
        heap w' sid =
          with_streamID (Some 0%Z)
            (with_localStream None (with_internalTimer None (heap w sid))) /\
        calls w' = calls w ++ [ClientLeave sid]
          ++ match _internalTimer (heap w sid) with
             | Some (S h) => [ClearInterval (S h)]
             | _ => []
             end
          ++ match _localStream (heap w sid) with
             | Some st => teardown_calls sid st
             | None => []
             end
    | _ => heap w' = heap w /\ calls w' = calls w ++ [ClientLeave sid]
    end.
Proof.
  destruct (leave_quiescent sid w Hquiet) as (w1 & E & Hh & Hx & _ & _ & Hc).
  unfold exit, bind. rewrite E.
  destruct (leave_outcome (script w)) as [[] | e | ].
  - destruct (destroy_session w1 sid) as (D & H1 & C1).
    rewrite D. eexists. split; [reflexivity |].
    split; [unfold exec; rewrite destroy_web; exact Hx |].
    rewrite H1, C1, Hh, Hc, <- app_assoc. split; reflexivity.
  - exists w1. repeat split; assumption.
  - exists w1. repeat split; assumption.
Qed.

Lemma exit_contract_witness :
  let w := ready [Fails 4 (SdkError "LEAVE_FAILED")] in
  exists w',
    exit 0 w = (Throw (SdkError "LEAVE_FAILED"), w') /\ heap w' = heap w.
Proof.
  intros w.
  assert (Q : queue w = []) by (vm_compute; reflexivity).
  pose proof (exit_contract w 0 Q) as H.
  assert (S : script w = [Fails 4 (SdkError "LEAVE_FAILED")]) by (vm_compute; reflexivity).
  rewrite S in H. cbn [leave_outcome] in H.
  destruct H as (w' & E & _ & Hh & _).
  exists w'. split; [exact E | exact Hh].
Defined.

(** ** [getDevices] of the session and [createPreviewStream] *)

(** X8: The session's [getDevices] in a quiet world resolves, when the SDK
    lists the devices, with one record per device, in the SDK's order,
    holding the device's id, kind and label and nothing else; it rejects
    with the SDK's error when the listing fails.  It touches neither a
    session nor the coordinator. *)
Theorem getDevices_contract (w : World) (sid : nat) (Hquiet : queue w = []) :
  exists w',
    getDevices sid w =
      (match script w with
       | Succeeds _ :: _ => Done (VDevices (map to_device (sdk_devices w)))
       | Fails _ e :: _ => Throw e
       | _ => Hang
       end, w') /\
    heap w' = heap w /\ web w' = web w /\ calls w' = calls w ++ [GetDevices].
Proof.
  revert Hquiet. destruct w as [ap h nc x ps np q t nh sc dv cs]. flat.
  intros Q. subst q.
  unfold getDevices, sdk_callbacks, setTimeout, call.
  destruct sc as [| [d | d e | ] rs]; msteps;
    cbn [weight task_weight Nat.add enqueue]; unfold await; flat;
    cbn [weight task_weight Nat.add].
  - await_end. eexists. repeat split; reflexivity.
  - await_tick. unfold settle. msteps. await_end.
    eexists. repeat split; reflexivity.
  - await_tick. unfold settle. msteps. await_end.
    eexists. repeat split; reflexivity.
  - await_end. eexists. repeat split; reflexivity.
Qed.

Lemma getDevices_contract_witness :
  let mic := {| sdk_deviceId := "d1"; sdk_kind := "audioinput";
                sdk_label := "Mic"; sdk_groupId := "g1" |} in
  exists w',
    getDevices 0 (initial "app" [Succeeds 7] [mic])
      = (Done (VDevices [{| dev_deviceId := "d1"; dev_kind := "audioinput";
                            dev_label := "Mic" |}]), w').
Proof.
  intros mic.
  destruct (@getDevices_contract (initial "app" [Succeeds 7] [mic]) 0 eq_refl)
    as (w' & E & _).
  exists w'. exact E.
Defined.

(** X9: [createPreviewStream] in a quiet world creates a stream from the
    three device ids with video and audio on and screen off, and resolves
    with that very stream once the SDK has initialised it; it rejects with
    the SDK's error when the initialisation fails.  The stream is handed to
    the caller only: no session and no field of the coordinator refers to
    it. *)
Theorem createPreviewStream_contract (w : World)
    (cameraId microphoneId speakerId : option string) (Hquiet : queue w = []) :
  let cfg := Preview cameraId microphoneId speakerId in
  exists w',
    Web.createPreviewStream cameraId microphoneId speakerId w =
      (match script w with
       | Succeeds _ :: _ => Done (VStream {| config := cfg; isPlaying := false |})
       | Fails _ e :: _ => Throw e
       | _ => Hang
       end, w') /\
    heap w' = heap w /\ web w' = web w /\
    calls w' = calls w ++ [CreateStream cfg; StreamInit cfg].
Proof.
  intros cfg. subst cfg.
  revert Hquiet. destruct w as [ap h nc x ps np q t nh sc dv cs]. flat.
  intros Q. subst q.
  unfold Web.createPreviewStream, sdk_callbacks, setTimeout, call.
  destruct sc as [| [d | d e | ] rs]; msteps;
    cbn [weight task_weight Nat.add enqueue]; unfold await; flat;
    cbn [weight task_weight Nat.add].
  - await_end. eexists. rewrite <- app_assoc. repeat split; reflexivity.
  - await_tick. unfold settle. msteps. await_end.
    eexists. rewrite <- app_assoc. repeat split; reflexivity.
  - await_tick. unfold settle. msteps. await_end.
    eexists. rewrite <- app_assoc. repeat split; reflexivity.
  - await_end. eexists. rewrite <- app_assoc. repeat split; reflexivity.
Qed.

Lemma createPreviewStream_contract_witness :
  exists w',
    Web.createPreviewStream (Some "cam-1") None None
      (initial "app" [Fails 9 (SdkError "NotAllowedError")] [])
      = (Throw (SdkError "NotAllowedError"), w').
Proof.
  destruct (@createPreviewStream_contract
              (initial "app" [Fails 9 (SdkError "NotAllowedError")] [])
              (Some "cam-1") None None eq_refl) as (w' & E & _).
  exists w'. exact E.
Defined.

(** ** The SDK calls of [joinChannel] *)

(** X10: [joinChannel] in a quiet world on a primary session that is not
    initialised, the SDK accepting the init.  The ten client handlers are
    registered and the round-trip interval is started before the join is
    attempted, and the join carries the uid and the channel given.  The
    outcome is that of the join, then of the dual-stream request when one is
    made.  When the join fails or is never answered, the handlers stay
    registered and the interval keeps running: nothing is undone. *)
Theorem joinChannel_sequence (w : World) (uid : Z) (chan : string) (dual : bool)
    (d1 : nat) (r2 : Reply) (rest : list Reply)
    (Hquiet : queue w = [])
    (Hinit : _init (heap w (rtc (web w))) = false)
    (Hsdk : script w = Succeeds d1 :: r2 :: rest) :
  let r := rtc (web w) in
  exists w',
    Web.joinChannel uid chan dual w =
      (match r2 with
       | Succeeds _ => if dual then leave_outcome rest else Done tt
       | Fails _ e => Throw e
       | Silent => Hang
       end, w') /\
    _init (heap w' r) = true /\
    _internalTimer (heap w' r) = Some (next_handle w) /\
    calls w' = calls w
      ++ [ClientInit r (APP_ID w); ConsoleLog "[smart-client] init client"]
      ++ map (ClientOn r) clientEvents
      ++ [SetInterval (next_handle w) 100; ClientJoin r chan uid]
      ++ match r2 with
         | Succeeds _ => if dual then [ClientEnableDualStream r] else []
         | _ => []
         end.
Proof.
  intros r. subst r.
  revert Hquiet Hinit Hsdk. destruct w as [ap h nc x ps np q t nh sc dv cs]. flat.
  intros Q I S. subst q sc.
  unfold Web.joinChannel, Web.the_rtc, createClient, initClient, join, enableDualStream,
    subscribeClientEvents, clientEvents, sdk_callbacks, setTimeout, call, assign,
    assign_web, this, this_web.
  msteps. cbn [rtc with_channel with_localUid]. rewrite I. msteps.
  cbn [weight task_weight Nat.add enqueue].
  await_tick. unfold assign, settle. msteps. await_end. msteps.
  cbn [for_each]. unfold call. msteps.
  cbn [localUid with_channel with_localUid].
  destruct r2 as [d2 | d2 e2 | ]; msteps; cbn [weight task_weight Nat.add enqueue].
  - await_tick. unfold settle. msteps. await_end. msteps.
    destruct dual; msteps.
    + destruct rest as [| [d3 | d3 e3 | ] rs]; msteps;
        cbn [weight task_weight Nat.add enqueue leave_outcome];
        [ await_end
        | await_tick; unfold settle; msteps; await_end; msteps
        | await_tick; unfold settle; msteps; await_end
        | await_end ];
        (eexists; split; [reflexivity |]; flat;
         cbn [_init _internalTimer with_init with_internalTimer map app];
         rewrite <- !app_assoc; repeat split; reflexivity).
    + eexists. split; [reflexivity |]. flat.
      cbn [_init _internalTimer with_init with_internalTimer map app].
      rewrite <- !app_assoc. repeat split; reflexivity.
  - await_tick. unfold settle. msteps. await_end.
    eexists. split; [reflexivity |]. flat.
    cbn [_init _internalTimer with_init with_internalTimer map app].
    rewrite <- !app_assoc. repeat split; reflexivity.
  - await_end.
    eexists. split; [reflexivity |]. flat.
    cbn [_init _internalTimer with_init with_internalTimer map app].
    rewrite <- !app_assoc. repeat split; reflexivity.
Qed.

Lemma joinChannel_sequence_witness :
  let w := initial "app" [Succeeds 5; Fails 10 (SdkError "JOIN_FAILED")] [] in
  exists w',
    Web.joinChannel 42 "room1" true w = (Throw (SdkError "JOIN_FAILED"), w') /\
    _internalTimer (heap w' 0) = Some 1.
Proof.
  intros w.
  destruct (@joinChannel_sequence w 42 "room1" true 5
              (Fails 10 (SdkError "JOIN_FAILED")) [] eq_refl eq_refl eq_refl)
    as (w' & E & _ & T & _).
  exists w'. split; [exact E | exact T].
Defined.

(** ** The SDK calls of [startScreenShare] *)

(** X11: [startScreenShare] in a quiet world, the SDK initialising the
    stream and the client and accepting the join.  The screen stream is
    created and initialised on a session made for the share before that
    session's client is initialised; the client's handlers are registered
    but no round-trip interval is started; the session joins under
    [SHARE_ID] the channel the coordinator has recorded, whatever it is;
    then the stream is published.  The outcome is that of the publish, and
    [shared] is raised only when it resolves. *)
Theorem startScreenShare_sequence (w : World) (d1 d2 d3 : nat) (rest : list Reply)
    (Hquiet : queue w = [])
    (Hsdk : script w = Succeeds d1 :: Succeeds d2 :: Succeeds d3 :: rest) :
  let s := next_client w in
  let cfg :=
    OfSpec {| streamID := SHARE_ID; video := false; audio := true;
              mirror := Some false; screen := Some true;
              microphoneId := Some ""; cameraId := Some ""; audioOutput := None |} in
  exists w',
    Web.startScreenShare w = (outcome_of rest, w') /\
    shareClient (web w') = Some s /\
    shared (web w') = match early_failure rest with
                      | None => true
                      | Some _ => shared (web w)
                      end /\
    _internalTimer (heap w' s) = None /\
    calls w' = calls w
      ++ [CreateClient s; CreateStream cfg;
          ConsoleLog "[smart-client] _localStream "; StreamInit cfg]
      ++ map (StreamOn s) streamEvents
      ++ [ClientInit s (APP_ID w); ConsoleLog "[smart-client] init client"]
      ++ map (ClientOn s) clientEvents
      ++ [ClientJoin s (channel (web w)) SHARE_ID;
          ClientPublish s (Some {| config := cfg; isPlaying := false |})].
Proof.
  intros s cfg. subst s cfg.
  revert Hquiet Hsdk. destruct w as [ap h nc x ps np q t nh sc dv cs]. flat.
  intros Q S. subst q sc.
  unfold Web.startScreenShare, Web.the_shareClient, new_AgoraRTCClient,
    createLocalStream, createClient, initClient, join, publish,
    subscribeClientEvents, clientEvents, sdk_callbacks, sdk_on_failure, setTimeout,
    call, assign, assign_web, this, this_web, outcome_of, early_failure.
  msteps. cbn [shareClient with_shareClient]. msteps.
  cbn [weight task_weight Nat.add enqueue].
  await_tick.
  unfold subscribeLocalStreamEvents, streamEvents, call, assign, this, settle.
  msteps. cbn [_localStream with_streamID with_localStream fresh_client for_each].
  msteps. cbn [audioOutputDevice audioOutput mirror_off]. msteps.
  await_end. msteps.
  cbn [shareClient with_shareClient]. msteps.
  cbn [_init with_streamID with_localStream fresh_client]. msteps.
  cbn [weight task_weight Nat.add enqueue].
  await_tick. unfold assign, settle. msteps. await_end. msteps.
  cbn [for_each]. unfold call. msteps.
  cbn [shareClient with_shareClient]. msteps.
  cbn [weight task_weight Nat.add enqueue].
  await_tick. unfold settle. msteps. await_end. msteps.
  cbn [shareClient with_shareClient channel]. msteps.
  cbn [_published _localStream with_init with_streamID with_localStream fresh_client].
  rewrite !bind_bind. mstep. rewrite !bind_bind.
  destruct rest as [| [d | d e | ] rs]; msteps; cbn [enqueue]; rewrite ?ltb_shift;
    [ | | destruct (Nat.leb_spec d 300) as [Hd | Hd]; cbn [negb]; flat | ];
    cbn [weight task_weight Nat.add];
    await_tick; unfold settle, assign; msteps; await_end; msteps;
    (eexists; split; [reflexivity |]; flat;
     cbn [shareClient shared with_shareClient with_shared _internalTimer
          with_published with_init with_streamID with_localStream fresh_client
          map app mirror_off streamID video audio mirror screen microphoneId
          cameraId audioOutput];
     rewrite <- !app_assoc; repeat split; reflexivity).
Qed.

Lemma startScreenShare_sequence_witness :
  let w := initial "app" [Succeeds 2; Succeeds 5; Succeeds 10] [] in
  exists w',
    Web.startScreenShare w = (Done tt, w') /\ shared (web w') = true /\
    joins (calls w') = [ClientJoin 1 "" SHARE_ID].
Proof.
  intros w.
  destruct (@startScreenShare_sequence w 2 5 10 [] eq_refl eq_refl)
    as (w' & E & _ & S & _ & C).
  exists w'. split; [exact E |]. split; [exact S |].
  rewrite C. reflexivity.
Defined.

(** ** The coordinator's flags *)

Lemma createClient_web sid appId rtt w :
  web (snd (createClient sid appId rtt w)) = web w.
Proof. apply (frames_createClient (R := same_web)); trivial_ok. Qed.

Lemma join_web sid uid chan w : web (snd (join sid uid chan w)) = web w.
Proof. apply (frames_join (R := same_web)); trivial_ok. Qed.

Lemma enableDualStream_web sid w : web (snd (enableDualStream sid w)) = web w.
Proof. apply (frames_enableDualStream (R := same_web)); trivial_ok. Qed.

Lemma createLocalStream_web sid data w :
  web (snd (createLocalStream sid data w)) = web w.
Proof. apply (frames_createLocalStream (R := same_web)); trivial_ok. Qed.

Lemma publish_web sid w : web (snd (publish sid w)) = web w.
Proof. apply (frames_publish (R := same_web)); trivial_ok. Qed.

(** A step that leaves the coordinator alone, followed by the rest. *)
Lemma bind_web A B (m : M A) (k : A -> M B) w :
  web (snd (m w)) = web w ->
  exists r w1,
    web w1 = web w /\ fst (m w) = r /\
    bind m k w = match r with
                 | Done a => k a w1
                 | Throw e => (Throw e, w1)
                 | Hang => (Hang, w1)
                 end.
Proof.
  intros H. unfold bind. destruct (m w) as [[a | e | ] w1]; cbn [fst snd] in *;
    eexists; exists w1; repeat split; assumption.
Qed.

Ltac web_step H :=
  let r := fresh "r" in
  let w1 := fresh "w" in
  let W := fresh "W" in
  let E := fresh "E" in
  match goal with
  | |- context [bind ?m ?k ?w0] =>
      destruct (@bind_web _ _ m k w0 (H w0)) as (r & w1 & W & _ & E);
      rewrite E; clear E;
      destruct r as [[] | ? | ]; cbn [fst snd]
  end.

Lemma unpublishLocalStream_web w :
  web (snd (Web.unpublishLocalStream w)) =
  match fst (Web.unpublishLocalStream w) with
  | Done _ => with_web_published false (web w)
  | _ => web w
  end.
Proof.
  unfold Web.unpublishLocalStream, call, assign_web.
  rewrite bind_modify_eq. cbv beta.
  match goal with |- context [bind Web.the_rtc _ ?W] => set (w0 := W) end.
  assert (W0 : web w0 = web w) by reflexivity.
  clearbody w0. rewrite <- W0. clear W0.
  rewrite bind_the_rtc.
  web_step (unpublish_web (rtc (web w0))); [| congruence | congruence].
  rewrite modify_eq. cbn [fst snd web set_web]. congruence.
Qed.

(** X12: [joinChannel], from any state: the uid and the channel are recorded
    before anything else and stay recorded whatever the outcome; [joined] is
    raised exactly when [joinChannel] completes, and no other field of the
    coordinator changes, whatever callbacks run in the meantime. *)
Theorem joinChannel_flags (uid : Z) (chan : string) (dual : bool) (w : World) :
  web (exec (Web.joinChannel uid chan dual) w) =
  match fst (Web.joinChannel uid chan dual w) with
  | Done _ => with_joined true (with_channel chan (with_localUid uid (web w)))
  | _ => with_channel chan (with_localUid uid (web w))
  end.
Proof.
  unfold exec, Web.joinChannel, assign_web.
  rewrite !bind_modify_eq. cbv beta.
  match goal with |- context [bind Web.the_rtc _ ?W] => set (w0 := W) end.
  assert (W0 : web w0 = with_channel chan (with_localUid uid (web w))) by reflexivity.
  clearbody w0. rewrite <- W0. clear W0.
  rewrite bind_the_rtc, bind_gets_eq.
  web_step (createClient_web (rtc (web w0)) (APP_ID w0) true);
    [| congruence | congruence].
  unfold this_web. rewrite bind_gets_eq.
  web_step (join_web (rtc (web w0)) (localUid (web w1)) chan);
    [| congruence | congruence].
  destruct dual.
  - web_step (enableDualStream_web (rtc (web w0))); [| congruence | congruence].
    rewrite modify_eq. cbn [fst snd web set_web]. congruence.
  - rewrite bind_ret_eq, modify_eq. cbn [fst snd web set_web]. congruence.
Qed.

(** X13: [unpublishLocalStream], from any state: the coordinator's
    [published] is cleared exactly when the session's [unpublish] resolves;
    when it rejects or never settles, the coordinator is left as it was. *)
Theorem unpublishLocalStream_flags (w : World) :
  web (exec Web.unpublishLocalStream w) =
  match fst (Web.unpublishLocalStream w) with
  | Done _ => with_web_published false (web w)
  | _ => web w
  end.
Proof. exact (unpublishLocalStream_web w). Qed.

Lemma publishLocalStream_web data w r w' :
  Web.publishLocalStream data w = (r, w') ->
  match r with
  | Done _ => web w' = with_web_published true (web w)
  | _ => web w' = web w \/
         (published (web w) = true /\ web w' = with_web_published false (web w))
  end.
Proof.
  unfold Web.publishLocalStream, call, assign_web, this_web.
  rewrite bind_modify_eq. cbv beta.
  match goal with |- context [bind (gets web) _ ?W] => set (w0 := W) end.
  assert (W0 : web w0 = web w) by reflexivity.
  clearbody w0. rewrite <- W0. clear W0 w.
  rewrite bind_gets_eq.
  assert (Rest : forall w1 r1 w2,
            (r <- Web.the_rtc ;; createLocalStream r data ;; publish r ;;
             modify (fun w => set_web (with_web_published true (web w)) w)) w1
              = (r1, w2) ->
            web w2 = match r1 with
                     | Done _ => with_web_published true (web w1)
                     | _ => web w1
                     end).
  { intros w1 r1 w2. rewrite bind_the_rtc.
    web_step (createLocalStream_web (rtc (web w1)) data);
      [| intros E; injection E as <- <-; assumption
       | intros E; injection E as <- <-; assumption].
    web_step (publish_web (rtc (web w1)));
      [| intros E; injection E as <- <-; congruence
       | intros E; injection E as <- <-; congruence].
    rewrite modify_eq. intros E; injection E as <- <-.
    cbn [web set_web]. congruence. }
  destruct (published (web w0)) eqn:P.
  - rewrite bind_bind.
    pose proof (unpublishLocalStream_web w0) as U.
    destruct (Web.unpublishLocalStream w0) as [[[] | e | ] w1] eqn:EU;
      cbn [fst snd] in U.
    + erewrite bind_done by exact EU. rewrite bind_modify_eq. cbv beta.
      match goal with |- context [bind Web.the_rtc _ ?W] => set (w2 := W) end.
      assert (W2 : web w2 = with_web_published false (web w0)) by (rewrite <- U; reflexivity).
      clearbody w2. intros E. apply Rest in E. rewrite W2 in E.
      destruct r as [[] | e | ].
      * rewrite E. destruct (web w0); reflexivity.
      * right. split; [reflexivity | exact E].
      * right. split; [reflexivity | exact E].
    + erewrite bind_throw by exact EU. intros E; injection E as <- <-. left. exact U.
    + erewrite bind_hang by exact EU. intros E; injection E as <- <-. left. exact U.
  - rewrite bind_ret_eq. intros E. apply Rest in E.
    destruct r as [[] | e | ]; [exact E | left; exact E | left; exact E].
Qed.

(** X14: [publishLocalStream], from any state: when it completes the
    coordinator's [published] is true and nothing else has changed.  When it
    does not complete, the coordinator is as it was, except that [published]
    has been cleared if the preliminary unpublish went through. *)
Theorem publishLocalStream_flags (data : AgoraStreamSpec) (w : World) :
  let x' := web (exec (Web.publishLocalStream data) w) in
  match fst (Web.publishLocalStream data w) with
  | Done _ => x' = with_web_published true (web w)
  | _ => x' = web w \/
         (published (web w) = true /\ x' = with_web_published false (web w))
  end.
Proof.
  cbv zeta. unfold exec.
  pose proof (@publishLocalStream_web data w) as H.
  destruct (Web.publishLocalStream data w) as [r w'].
  specialize (H r w' eq_refl). exact H.
Qed.

(** X15: [leaveChannel], from any state: the uid and the channel are reset
    first and stay reset whatever the outcome.  When [leaveChannel]
    completes, [published] and [joined] are false in addition.  When it does
    not, [joined] is as it was, and [published] has been cleared if the
    unpublish step went through (it is the leave that failed). *)
Theorem leaveChannel_flags (w : World) :
  let x := with_channel "" (with_localUid 0%Z (web w)) in
  let x' := web (exec Web.leaveChannel w) in
  match fst (Web.leaveChannel w) with
  | Done _ => x' = with_joined false (with_web_published false x)
  | _ => x' = x \/ x' = with_web_published false x
  end.
Proof.
  cbv zeta. unfold exec. rewrite leaveChannel_eq. cbv zeta.
  pose proof (unpublish_web (rtc (web w)) (leave_prelude w)) as W1.
  destruct (unpublish (rtc (web w)) (leave_prelude w)) as [[[] | e | ] w1];
    cbn [fst snd] in W1 |- *.
  - pose proof (leave_web (rtc (web w))
                  (set_web (with_web_published false (web w1)) w1)) as W2.
    destruct (leave (rtc (web w)) (set_web (with_web_published false (web w1)) w1))
      as [[[] | e | ] w2]; cbn [fst snd] in W2 |- *.
    + autorewrite with world. rewrite W2. autorewrite with world. rewrite W1.
      reflexivity.
    + right. rewrite W2. autorewrite with world. rewrite W1. reflexivity.
    + right. rewrite W2. autorewrite with world. rewrite W1. reflexivity.
  - left. exact W1.
  - left. exact W1.
Qed.

#[export] Instance same_share_framing : Framing same_share (fun _ => True).
Proof. constructor; unfold same_share; intros; simpl; try tauto; intuition congruence. Qed.

Lemma exit_same_share : frames same_share Web.exit.
Proof.
  web_frames; try solve [intros; exact I]; try solve [split; reflexivity].
Qed.

Lemma leaveChannel_same_share : frames same_share Web.leaveChannel.
Proof.
  web_frames; try solve [intros; exact I]; try solve [split; reflexivity].
Qed.

(** X16: The coordinator's [exit], from any state, never assigns [shared] or
    [shareClient]: after an [exit] that unpublished and left the screen
    share, [shared] is still true.  When [leaveChannel] does not complete,
    [exit] stops there, with the same outcome, and the screen-share session
    is not touched.  When it completes and no share is on, a screen-share
    session that exists is destroyed and its handlers removed, without any
    unpublish or leave; with no such session [exit] is [leaveChannel]. *)
Theorem exit_screen_share (w : World) :
  let w' := exec Web.exit w in
  shared (web w') = shared (web w) /\
  shareClient (web w') = shareClient (web w) /\
  (forall r w1, Web.leaveChannel w = (r, w1) -> r <> Done tt ->
                Web.exit w = (r, w1)) /\
  (forall w1, Web.leaveChannel w = (Done tt, w1) -> shared (web w) = false ->
     Web.exit w =
       match shareClient (web w) with
       | Some s => (Done tt, exec (destroyClient s) (exec (destroy s) w1))
       | None => (Done tt, w1)
       end).
Proof.
  cbv zeta.
  destruct (exit_same_share w) as [H1 H2].
  split; [exact H1 |]. split; [exact H2 |]. split.
  - intros r w1 E N. unfold Web.exit.
    destruct r as [[] | e | ]; [congruence | |].
    + erewrite bind_throw by exact E. reflexivity.
    + erewrite bind_hang by exact E. reflexivity.
  - intros w1 E S.
    destruct (leaveChannel_same_share w) as [L1 L2]. rewrite E in L1, L2.
    cbn [snd] in L1, L2.
    unfold Web.exit. erewrite bind_done by exact E.
    unfold this_web. rewrite bind_gets_eq. rewrite L1, S.
    rewrite bind_ret_eq, bind_gets_eq. rewrite L2.
    destruct (shareClient (web w)) as [s |] eqn:SC; [| reflexivity].
    destruct (destroy_session w1 s) as (D & _ & _).
    erewrite bind_done by exact D.
    erewrite bind_the_shareClient
      by (change (web (exec (destroy s) w1)) with (web (snd (destroy s w1)));
          rewrite destroy_web; exact L2).
    unfold destroyClient, unsubscribeClientEvents, exec.
    generalize (snd (destroy s w1)). intros w2.
    unfold clientEvents. cbn [for_each]. unfold call.
    repeat (rewrite bind_modify_eq; cbv beta). rewrite ret_eq. reflexivity.
Qed.

Lemma exit_screen_share_witness :
  let w := run [OpJoinChannel 42 "room1" false; OpStartScreenShare; OpStopScreenShare]
             (initial "app"
                [Succeeds 5; Succeeds 10; Succeeds 2; Succeeds 5; Succeeds 10;
                 Silent; Silent; Succeeds 4; Succeeds 6] []) in
  shareClient (web w) = Some 1 /\
  Web.exit w = (Done tt, exec (destroyClient 1) (exec (destroy 1) (exec Web.leaveChannel w))).
Proof.
  intros w.
  assert (SC : shareClient (web w) = Some 1) by (vm_compute; reflexivity).
  split; [exact SC |].
  destruct (exit_screen_share w) as (_ & _ & _ & H).
  rewrite SC in H. apply H.
  - vm_compute. reflexivity.
  - vm_compute. reflexivity.
Defined.

(** ** [stopScreenShare] without a screen share *)

Lemma run_without_share ops w :
  Forall (fun o => o <> OpStartScreenShare) ops ->
  shareClient (web w) = None -> shareClient (web (run ops w)) = None.
Proof.
  revert w. induction ops as [| o ops IH]; intros w F N; [exact N |].
  inversion F as [| o' ops' Ho Hops]; subst.
  unfold run. cbn [fold_left]. apply IH; [exact Hops |].
  destruct (@op_keeps_share o w Ho) as [K _]. rewrite K. exact N.
Qed.

(** X17: As long as [startScreenShare] has not been called, whatever else
    has been, [shareClient] is null and [stopScreenShare] fails with a
    [TypeError] on its first line; it makes no call and changes nothing. *)
Theorem stopScreenShare_before_any_share (appId : string) (sdk : list Reply)
    (devs : list SdkDevice) (ops : list Op)
    (Hnone : Forall (fun o => o <> OpStartScreenShare) ops) :
  let w := run ops (initial appId sdk devs) in
  Web.stopScreenShare w = (Throw (TypeError "this.shareClient is null"), w).
Proof.
  intros w.
  assert (N : shareClient (web w) = None).
  { apply run_without_share; [exact Hnone | reflexivity]. }
  clearbody w. unfold Web.stopScreenShare, Web.the_shareClient, this_web.
  rewrite bind_bind, bind_gets_eq, N. reflexivity.
Qed.

Lemma stopScreenShare_before_any_share_witness :
  let w := run [OpJoinChannel 42 "room1" false; OpPublishLocalStream camera]
             (initial "app" [Succeeds 5; Succeeds 10; Succeeds 3] []) in
  Web.stopScreenShare w = (Throw (TypeError "this.shareClient is null"), w).
Proof.
  apply (@stopScreenShare_before_any_share "app" [Succeeds 5; Succeeds 10; Succeeds 3] []
           [OpJoinChannel 42 "room1" false; OpPublishLocalStream camera]).
  repeat constructor; discriminate.
Defined.

(** ** The coordinator's [getDevices] *)

Lemma max_add_r t d : Nat.max t (t + d) = t + d.
Proof. apply Nat.max_r. lia. Qed.



(** X19: When the SDK fails to initialise the client or the stream, the
    coordinator's [getDevices] in a quiet world rejects with the SDK's error
    and never asks for the devices.  In the first case no stream is created.
    In the second the session keeps the stream that failed to initialise and
    no timer is set: nothing is pending that would close it. *)
Theorem getDevices_early_failure (w : World) (Hquiet : queue w = []) :
  let c := next_client w in
  let cfg :=
    OfSpec {| streamID := 0%Z; video := true; audio := true; mirror := Some false;
              screen := None; microphoneId := Some ""; cameraId := Some "";
              audioOutput := None |} in
  (forall d e rest, script w = Fails d e :: rest ->
     exists w',
       Web.getDevices w = (Throw e, w') /\ queue w' = [] /\
       _localStream (heap w' c) = None /\
       calls w' = calls w ++ [CreateClient c; ClientInit c (APP_ID w)]) /\
  (forall d1 d2 e rest, script w = Succeeds d1 :: Fails d2 e :: rest ->
     exists w',
       Web.getDevices w = (Throw e, w') /\ queue w' = [] /\
       _localStream (heap w' c) = Some {| config := cfg; isPlaying := false |} /\
       calls w' = calls w
         ++ [CreateClient c; ClientInit c (APP_ID w);
             ConsoleLog "[smart-client] init client";
             CreateStream cfg; ConsoleLog "[smart-client] _localStream ";
             StreamInit cfg]).
Proof.
  intros c cfg. subst c cfg.
  revert Hquiet. destruct w as [ap h nc x ps np q t nh sc dv cs]. flat.
  intros Q. subst q. split.
  - intros d e rest S. subst sc.
    unfold Web.getDevices, new_AgoraRTCClient, initClient, sdk_callbacks, setTimeout,
      call, assign, this.
    msteps. cbn [_init fresh_client]. msteps.
    cbn [weight task_weight Nat.add enqueue].
    await_tick. unfold settle. msteps. await_end.
    eexists. split; [reflexivity |]. flat. rewrite <- !app_assoc.
    repeat split; reflexivity.
  - intros d1 d2 e rest S. subst sc.
    unfold Web.getDevices, new_AgoraRTCClient, initClient, createLocalStream,
      sdk_callbacks, setTimeout, call, assign, this.
    msteps. cbn [_init fresh_client]. msteps.
    cbn [weight task_weight Nat.add enqueue].
    await_tick. unfold assign, settle. msteps. await_end. msteps.
    cbn [weight task_weight Nat.add enqueue].
    await_tick. unfold settle. msteps. await_end.
    eexists. split; [reflexivity |]. flat. rewrite <- !app_assoc.
    repeat split; reflexivity.
Qed.

Lemma getDevices_early_failure_witness :
  let w := initial "app" [Succeeds 5; Fails 3 (SdkError "NotAllowedError")] [] in
  exists w',
    Web.getDevices w = (Throw (SdkError "NotAllowedError"), w') /\ queue w' = [] /\
    _localStream (heap w' 1) <> None.
Proof.
  intros w.
  destruct (@getDevices_early_failure w eq_refl) as (_ & H).
  destruct (H 5 3 (SdkError "NotAllowedError") [] eq_refl) as (w' & E & Q & S & _).
  exists w'. split; [exact E |]. split; [exact Q |].
  change (next_client w) with 1 in S. rewrite S. discriminate.
Defined.

(** ** A stream created while an unpublish timer is pending *)

Lemma bind_throw_eq A B (e : Err) (k : A -> M B) w : bind (throw e) k w = (Throw e, w).
Proof. reflexivity. Qed.

(** X20: The 300 ms timer of an [unpublish] that was rejected is still
    pending and destroys whatever stream the session holds when it fires.
    When [createLocalStream] is called in between and the timer fires before
    the SDK has initialised the new stream, the timer closes the new stream
    and clears [_localStream]; the SDK's success callback then fails on the
    null stream before it reaches [resolve], and [createLocalStream] never
    settles. *)
Theorem createLocalStream_under_pending_unpublish (w : World) (sid p0 t0 d : nat)
    (rest : list Reply) (data : AgoraStreamSpec)
    (Hq : queue w = [(t0, TUnpublishTimer sid p0)])
    (Hp0 : p0 < next_promise w)
    (Hsdk : script w = Succeeds d :: rest)
    (Hfirst : t0 <= now w + d) :
  let cfg := OfSpec (mirror_off data) in
  exists w',
    createLocalStream sid data w = (Hang, w') /\
    _localStream (heap w' sid) = None /\ _published (heap w' sid) = false /\
    queue w' = [] /\
    calls w' = calls w
      ++ [CreateStream cfg; ConsoleLog "[smart-client] _localStream ";
          StreamInit cfg]
      ++ teardown_calls sid {| config := cfg; isPlaying := false |}.
Proof.
  intros cfg. subst cfg.
  revert Hq Hp0 Hsdk Hfirst. destruct w as [ap h nc x ps np q t nh sc dv cs]. flat.
  intros Q P S F. subst q sc.
  unfold createLocalStream, sdk_callbacks, setTimeout, call, assign, this.
  msteps. cbn [enqueue].
  assert (L : Nat.ltb (t + d) t0 = false) by (apply Nat.ltb_ge; exact F).
  rewrite L. cbn [weight task_weight Nat.add].
  assert (N : p0 <> np) by lia.
  erewrite await_loop_tick by (flat; try reflexivity; apply upd_same).
  erewrite tick_eq by (flat; reflexivity).
  flat. unfold exec. cbn [task_body]. unfold settle, assign. mstep.
  rewrite (upd_other _ _ N).
  assert (Fin : forall ps' : nat -> option Settled,
            ps' np = None ->
            exists w',
              (let (r, w'0) :=
                 await_loop 2 np
                   (snd
                      ((destroyLocalStream sid ;;
                        modify (fun w => set_heap
                                  (upd sid (with_published false (heap w sid)) (heap w)) w))
                         {| APP_ID := ap;
                            heap := upd sid
                                      (with_localStream
                                         (Some {| config := OfSpec (mirror_off data);
                                                  isPlaying := false |}) (h sid)) h;
                            next_client := nc; web := x; promises := ps';
                            next_promise := S np;
                            queue := [(t + d, TStreamInitOk sid np data)];
                            now := Nat.max t t0; next_handle := nh; script := rest;
                            sdk_devices := dv;
                            calls := ((cs ++ [CreateStream (OfSpec (mirror_off data))])
                                      ++ [ConsoleLog "[smart-client] _localStream "])
                                     ++ [StreamInit (OfSpec (mirror_off data))] |})) in
               match r with
               | Done _ => ret tt w'0
               | Throw e => (Throw e, w'0)
               | Hang => (Hang, w'0)
               end) = (Hang, w') /\
              _localStream (heap w' sid) = None /\ _published (heap w' sid) = false /\
              queue w' = [] /\
              calls w' = cs
                ++ [CreateStream (OfSpec (mirror_off data));
                    ConsoleLog "[smart-client] _localStream ";
                    StreamInit (OfSpec (mirror_off data))]
                ++ teardown_calls sid {| config := OfSpec (mirror_off data);
                                         isPlaying := false |}).
  { intros ps' Hps.
    erewrite bind_done by apply destroyLocalStream_eq. flat. rewrite modify_eq. flat.
    erewrite await_loop_tick by (flat; try reflexivity; exact Hps).
    erewrite tick_eq by (flat; reflexivity).
    flat. unfold exec. cbn [task_body].
    unfold subscribeLocalStreamEvents, assign, this. mstep. rewrite bind_bind. mstep.
    cbn [_localStream with_streamID with_localStream with_published].
    rewrite bind_throw_eq. flat.
    rewrite await_loop_idle by (flat; try reflexivity; exact Hps). flat.
    eexists. split; [reflexivity |]. flat.
    cbn [_localStream _published with_streamID with_localStream with_published].
    rewrite <- !app_assoc. repeat split; reflexivity. }
  destruct (ps p0) as [s0 |].
  - apply Fin. apply upd_same.
  - flat. apply Fin. rewrite upd_other by lia. apply upd_same.
Qed.

Lemma createLocalStream_under_pending_unpublish_witness :
  let w := exec (unpublish 0)
             (publishing [Fails 100 (SdkError "UNPUBLISH_FAILED"); Succeeds 250]) in
  exists w',
    createLocalStream 0 camera w = (Hang, w') /\ _localStream (heap w' 0) = None.
Proof.
  intros w.
  assert (Hq : queue w = [(618, TUnpublishTimer 0 4)]) by (vm_compute; reflexivity).
  assert (Hp0 : 4 < next_promise w) by (vm_compute; lia).
  assert (Hsdk : script w = Succeeds 250 :: []) by (vm_compute; reflexivity).
  assert (Hfirst : 618 <= now w + 250) by (vm_compute; lia).
  destruct (@createLocalStream_under_pending_unpublish w 0 4 618 250 [] camera
              Hq Hp0 Hsdk Hfirst) as (w' & E & S & _).
  exists w'. split; [exact E | exact S].
Defined.

(** * Invariants of the sessions *)

Section Keeping.
Context {R : World -> World -> Prop} `{!Keeps R}.

Lemma kept_ret A (a : A) : frames R (ret a).
Proof. intro w. apply kp_refl. Qed.

Lemma kept_throw A (e : Err) : frames R (@throw A e).
Proof. intro w. apply kp_refl. Qed.

Lemma kept_bind A B (m : M A) (f : A -> M B) :
  frames R m -> (forall a, frames R (f a)) -> frames R (bind m f).
Proof.
  intros Hm Hf w. unfold bind. specialize (Hm w).
  destruct (m w) as [[a | e | ] w1]; cbn [snd] in *; auto.
  eapply kp_trans; [exact Hm | apply Hf].
Qed.

Lemma kept_gets A (f : World -> A) : frames R (gets f).
Proof. intro w. apply kp_refl. Qed.

Lemma kept_assign sid f : session_update f -> frames R (assign sid f).
Proof. intros H w. apply kp_assign, H. Qed.

Lemma kept_assign_web f : frames R (assign_web f).
Proof. intro w. apply kp_web. Qed.

Lemma kept_call c : frames R (call c).
Proof. intro w. apply kp_calls. Qed.

Lemma kept_for_each A (xs : list A) (f : A -> M unit) :
  (forall x, frames R (f x)) -> frames R (for_each xs f).
Proof.
  intros H. induction xs as [| x xs IH]; cbn [for_each].
  - apply kept_ret.
  - apply kept_bind; auto.
Qed.

Lemma kept_new_promise : frames R new_promise.
Proof.
  intro w. unfold new_promise. cbn [snd].
  eapply kp_trans; [apply kp_promises | apply kp_next_promise].
Qed.

Lemma kept_settle p s : frames R (settle p s).
Proof.
  intro w. unfold settle, modify. cbn [snd].
  destruct (promises w p); [apply kp_refl | apply kp_promises].
Qed.

Lemma kept_setTimeout k ms : frames R (setTimeout k ms).
Proof. intro w. apply kp_queue. Qed.

Lemma kept_next_reply : frames R next_reply.
Proof.
  intro w. unfold next_reply. destruct (script w); cbn [snd];
    [apply kp_refl | apply kp_script].
Qed.

Lemma kept_next_handle n : frames R (modify (set_next_handle n)).
Proof. intro w. apply kp_next_handle. Qed.

Lemma kept_new_AgoraRTCClient : frames R new_AgoraRTCClient.
Proof.
  unfold new_AgoraRTCClient, call. intro w. rewrite bind_gets_eq. cbv beta.
  rewrite bind_modify_eq. cbv beta. rewrite bind_modify_eq. cbv beta.
  rewrite ret_eq. cbn [snd].
  eapply kp_trans; [apply kp_new | apply kp_calls].
Qed.

End Keeping.

Ltac kept_step :=
  lazymatch goal with
  | |- frames _ (bind _ _) => apply kept_bind; [ | intros ? ]
  | |- frames _ (ret _) => apply kept_ret
  | |- frames _ (throw _) => apply kept_throw
  | |- frames _ (gets _) => apply kept_gets
  | |- frames _ (assign _ _) => apply kept_assign; constructor
  | |- frames _ (assign_web _) => apply kept_assign_web
  | |- frames _ (call _) => apply kept_call
  | |- frames _ (for_each _ _) => apply kept_for_each; intros ?
  | |- frames _ new_promise => apply kept_new_promise
  | |- frames _ (settle _ _) => apply kept_settle
  | |- frames _ (setTimeout _ _) => apply kept_setTimeout
  | |- frames _ next_reply => apply kept_next_reply
  | |- frames _ (modify (set_next_handle _)) => apply kept_next_handle
  | |- frames _ new_AgoraRTCClient => apply kept_new_AgoraRTCClient
  | |- frames _ (match ?x with _ => _ end) => destruct x
  end.

Ltac kept_unfold :=
  progress
    unfold this, this_web, sdk_callbacks, sdk_on_failure,
      subscribeClientEvents, unsubscribeClientEvents, destroyClient,
      subscribeLocalStreamEvents, unsubscribeLocalStreamEvents,
      destroyLocalStream, setRemoteVideoStreamType, destroy, subscribe.

Ltac kept_sync := repeat first [ kept_step | kept_unfold ].

Section KeepingRuns.
Context {R : World -> World -> Prop} `{!Keeps R}.

Lemma kept_task_body k : frames R (task_body k).
Proof. destruct k; cbn [task_body]; kept_sync. Qed.

Lemma kept_tick w : R w (tick w).
Proof.
  unfold tick. destruct (queue w) as [| [t k] q].
  - apply kp_refl.
  - eapply kp_trans; [apply kp_queue |].
    eapply kp_trans; [apply kp_now |]. apply kept_task_body.
Qed.

Lemma kept_await_loop fuel p : frames R (await_loop fuel p).
Proof.
  induction fuel as [| fuel IH]; intros w; cbn [await_loop].
  - destruct (promises w p) as [[v | e] | ]; cbn [snd]; apply kp_refl.
  - destruct (promises w p) as [[v | e] | ]; cbn [snd]; try apply kp_refl.
    destruct (queue w) as [| x q] eqn:Q; cbn [snd]; [apply kp_refl |].
    eapply kp_trans; [apply kept_tick | apply IH].
Qed.

Lemma kept_await p : frames R (await p).
Proof. intro w. apply kept_await_loop. Qed.

End KeepingRuns.

Ltac kept_async :=
  repeat first
    [ lazymatch goal with |- frames _ (await _) => apply kept_await end
    | kept_step
    | kept_unfold
    | progress
        unfold initClient, createClient, publish, unpublish, enableDualStream,
          createLocalStream, join, leave, setAudioOutput, exit, getDevices,
          Web.getDevices, Web.joinChannel, Web.leaveChannel,
          Web.unpublishLocalStream, Web.enableDualStream, Web.publishLocalStream,
          Web.startScreenShare, Web.stopScreenShare, Web.exit,
          Web.createPreviewStream, Web.subscribe, Web.setRemoteVideoStreamType,
          Web.the_rtc, Web.the_shareClient ].

Section KeepingOps.
Context {R : World -> World -> Prop} `{!Keeps R}.

Lemma kept_run_op o w : R w (run_op o w).
Proof.
  destruct o; unfold run_op, exec;
    try (match goal with
         | |- R _ (snd (?m _)) => generalize w; change (frames R m)
         end; kept_async).
  apply kept_tick.
Qed.

Lemma kept_run ops w : R w (run ops w).
Proof.
  revert w. induction ops as [| o ops IH]; intros w; [apply kp_refl |].
  unfold run. cbn [fold_left].
  eapply kp_trans; [apply kept_run_op | apply IH].
Qed.

End KeepingOps.

#[export] Instance never_joined_keeps : Keeps never_joined.
Proof.
  constructor; unfold never_joined; intros; cbn [heap set_heap set_next_client set_web
    set_promises set_next_promise set_queue set_now set_next_handle set_script set_calls];
    auto.
  - unfold upd. destruct (Nat.eqb sid0 sid); [| auto].
    destruct H; cbn [_joined with_streamID with_init with_published with_internalTimer
                     with_localStream]; auto.
  - unfold upd. destruct (Nat.eqb sid (next_client w)); [reflexivity | auto].
Qed.

#[export] Instance init_kept_keeps : Keeps init_kept.
Proof.
  constructor; unfold init_kept;
    cbn [heap next_client set_heap set_next_client set_web
         set_promises set_next_promise set_queue set_now set_next_handle set_script
         set_calls].
  - intros w. split; [lia | auto].
  - intros a b c [H1 H2] [H3 H4]. split; [lia |].
    intros sid L I. apply H4; [lia | apply H2; assumption].
  - intros w sid f H. split; [lia |].
    intros sid0 L I. unfold upd. destruct (Nat.eqb sid0 sid) eqn:E; [| exact I].
    apply Nat.eqb_eq in E. subst sid0.
    destruct H; cbn [_init with_streamID with_init with_published with_internalTimer
                     with_localStream]; auto.
  - intros w. split; [lia |].
    intros sid L I. rewrite upd_other by lia. exact I.
  - intros w x. split; [lia | auto].
  - intros w ps. split; [lia | auto].
  - intros w n. split; [lia | auto].
  - intros w q. split; [lia | auto].
  - intros w t. split; [lia | auto].
  - intros w n. split; [lia | auto].
  - intros w sc. split; [lia | auto].
  - intros w cs. split; [lia | auto].
Qed.

(** X21: No method of either class and no callback ever assigns [_joined]:
    in every state a caller can reach, [_joined] is false in every session,
    joined or not. *)
Theorem joined_flag_never_set (w : World) :
  reachable w -> forall sid, _joined (heap w sid) = false.
Proof.
  intros (appId & sdk & devs & ops & ->).
  apply (kept_run (R := never_joined) ops (initial appId sdk devs)).
  intros sid. reflexivity.
Qed.

(** X22: No method and no callback clears [_init]: a session that is
    initialised stays initialised across any calls on the coordinator and
    any callbacks, including [leaveChannel], [stopScreenShare] and [exit]. *)
Theorem init_flag_never_cleared (ops : list Op) (w : World) (sid : nat)
    (Hsid : sid < next_client w) (Hinit : _init (heap w sid) = true) :
  _init (heap (run ops w) sid) = true.
Proof.
  destruct (kept_run (R := init_kept) ops w) as [_ H]. apply H; assumption.
Qed.

Lemma init_flag_never_cleared_witness :
  let w := run [OpJoinChannel 42 "room1" false]
             (initial "app" [Succeeds 5; Succeeds 10] []) in
  _init (heap (run [OpLeaveChannel; OpExit] w) 0) = true.
Proof.
  intros w. apply init_flag_never_cleared.
  - vm_compute. lia.
  - vm_compute. reflexivity.
Defined.

Lemma joined_flag_never_set_witness :
  let w := sharing [] in
  _joined (heap w 0) = false /\ _joined (heap w 1) = false.
Proof.
  intros w.
  assert (Hr : reachable w).
  { exists "app",
      ([Succeeds 5; Succeeds 10; Succeeds 2; Succeeds 5; Succeeds 10; Silent] ++ []),
      [], [OpJoinChannel 42 "room1" false; OpStartScreenShare].
    reflexivity. }
  split; apply (joined_flag_never_set Hr).
Defined.

(** ** A failure reported after the 300 ms timer *)

(** X23: When the SDK reports the failure of a publish or of an unpublish
    later than 300 ms after the call, with no other callback pending, nobody
    learns of it.  The timer has resolved the promise by then:  [publish]
    has completed with [_published] true, [unpublish] has completed with the
    stream torn down and [_published] false (without a local stream it
    resolves at once, as always).  The failure callback is still pending
    when the method returns, and when it runs the rejection has no effect:
    no session, no promise and no call changes. *)
Theorem late_failure_is_lost (w : World) (sid d : nat) (e : Err) (rs : list Reply)
    (Hquiet : queue w = []) (Hfail : script w = Fails d e :: rs)
    (Hlate : 300 < d) :
  let p := next_promise w in
  if _published (heap w sid) then
    match _localStream (heap w sid) with
    | Some st =>
        exists w',
          unpublish sid w = (Done tt, w') /\
          _published (heap w' sid) = false /\ _localStream (heap w' sid) = None /\
          queue w' = [(now w + d, TReject p e)] /\
          promises w' p = Some (Resolved VUndefined) /\
          heap (tick w') = heap w' /\ promises (tick w') = promises w' /\
          calls (tick w') = calls w' /\ queue (tick w') = []
    | None => exists w', unpublish sid w = (Done tt, w') /\ calls w' = calls w
    end
  else
    exists w',
      publish sid w = (Done tt, w') /\
      _published (heap w' sid) = true /\
      queue w' = [(now w + d, TReject p e)] /\
      promises w' p = Some (Resolved VUndefined) /\
      heap (tick w') = heap w' /\ promises (tick w') = promises w' /\
      calls (tick w') = calls w' /\ queue (tick w') = [].
Proof.
  intros p. subst p.
  revert Hquiet Hfail. destruct w as [ap h nc x ps np q t nh sc dv cs]. flat.
  intros Q S. subst q sc.
  assert (L : Nat.leb d 300 = false) by (apply Nat.leb_gt; exact Hlate).
  destruct (_published (h sid)) eqn:Hp.
  - destruct (_localStream (h sid)) as [st |] eqn:Hs.
    2: { match goal with
         | |- exists w', unpublish sid ?W = _ /\ _ =>
             destruct (@unpublish_noop sid W) as (w' & E & _ & _ & _ & _ & Hc & _)
         end.
         { unfold nothing_to_unpublish. flat. rewrite Hs. apply orb_true_r. }
         exists w'. split; assumption. }
    unfold unpublish, sdk_on_failure, setTimeout, this, assign, call.
    mstep. mstep. rewrite Hp, Hs. cbn [negb orb]. flat.
    rewrite !bind_bind. mstep. rewrite !bind_bind. msteps.
    cbn [enqueue]. rewrite ltb_shift, L. cbn [negb]. flat.
    cbn [weight task_weight Nat.add].
    await_tick. unfold settle, assign. msteps.
    erewrite bind_done by apply destroyLocalStream_eq. flat. mstep.
    await_end. msteps.
    eexists. split; [reflexivity |]. flat.
    cbn [_published _localStream with_published with_streamID with_localStream].
    split; [reflexivity |]. split; [reflexivity |]. split; [reflexivity |].
    split; [reflexivity |].
    erewrite tick_eq by (flat; reflexivity). flat. unfold exec. cbn [task_body].
    erewrite settle_settled by (flat; reflexivity). flat.
    repeat split; reflexivity.
  - unfold publish, sdk_on_failure, setTimeout, this, assign, call.
    mstep. mstep. rewrite Hp. flat.
    rewrite !bind_bind. mstep. rewrite !bind_bind. msteps.
    cbn [enqueue]. rewrite ltb_shift, L. cbn [negb]. flat.
    cbn [weight task_weight Nat.add].
    await_tick. unfold settle, assign. msteps. await_end. msteps.
    eexists. split; [reflexivity |]. flat.
    cbn [_published with_published].
    split; [reflexivity |]. split; [reflexivity |]. split; [reflexivity |].
    erewrite tick_eq by (flat; reflexivity). flat. unfold exec. cbn [task_body].
    erewrite settle_settled by (flat; reflexivity). flat.
    repeat split; reflexivity.
Qed.

Lemma late_failure_is_lost_witness :
  let w := ready [Fails 450 (SdkError "PUBLISH_FAILED")] in
  exists w',
    publish 0 w = (Done tt, w') /\ _published (heap w' 0) = true /\
    queue (tick w') = [] /\ calls (tick w') = calls w'.
Proof.
  intros w.
  assert (Hquiet : queue w = []) by (vm_compute; reflexivity).
  assert (Hfail : script w = Fails 450 (SdkError "PUBLISH_FAILED") :: [])
    by (vm_compute; reflexivity).
  assert (Hlate : 300 < 450) by lia.
  pose proof (@late_failure_is_lost w 0 _ _ _ Hquiet Hfail Hlate) as H.
  change (_published (heap w 0)) with false in H. cbv zeta iota in H.
  destruct H as (w' & E & P & _ & _ & _ & _ & C & Q).
  exists w'. repeat split; assumption.
Defined.

(** * The event loop never stops early

    [await] runs the queue for as many turns as the weight of the queue
    allows.  That bound is never the reason for a [Hang]: an [await] that
    does not resume has run every callback, and the promise is pending. *)

Lemma weight_enqueue t k q : weight (enqueue t k q) = task_weight k + weight q.
Proof.
  induction q as [| [t' k'] q IH]; cbn [enqueue weight]; [lia |].
  destruct (Nat.ltb t t'); cbn [weight]; lia.
Qed.

Lemma task_weight_pos k : 1 <= task_weight k.
Proof. destruct k; cbn [task_weight]; lia. Qed.

Lemma run_task_weight k w :
  weight (queue (run_task k w)) + 1 <= weight (queue w) + task_weight k.
Proof.
  destruct w as [ap h nc x ps np q t nh sc dv cs]. unfold run_task, exec.
  destruct k; cbn [task_body task_weight]; unfold settle, assign, call.
  - rewrite modify_eq. flat. destruct (ps p); flat; lia.
  - rewrite modify_eq. flat. destruct (ps p); flat; lia.
  - mstep. rewrite modify_eq. flat. destruct (ps p); flat; lia.
  - mstep. rewrite modify_eq. flat. destruct (ps p); flat; lia.
  - mstep. erewrite bind_done by apply destroyLocalStream_eq. rewrite modify_eq.
    destruct (ps p); flat; lia.
  - mstep. unfold subscribeLocalStreamEvents, this. rewrite bind_bind. mstep.
    destruct (_localStream (with_streamID (Some (streamID data)) (h sid))) as [st |].
    + unfold streamEvents. cbn [for_each]. unfold call. msteps.
      destruct (audioOutputDevice data) as [sp |].
      * unfold sdk_callbacks, setTimeout, call. msteps.
        destruct sc as [| [d | d e | ] rs]; msteps;
          rewrite ?weight_enqueue; cbn [task_weight];
          destruct (ps p); flat; rewrite ?weight_enqueue; cbn [task_weight]; lia.
      * msteps. destruct (ps p); flat; lia.
    + unfold throw, bind. flat. lia.
  - rewrite destroyLocalStream_eq. flat. lia.
  - mstep. rewrite modify_eq. flat. destruct (ps p); flat; lia.
  - rewrite modify_eq. flat. destruct (ps p); flat; lia.
  - rewrite modify_eq. flat. lia.
Qed.

Lemma tick_weight w x q :
  queue w = x :: q -> weight (queue (tick w)) < weight (queue w).
Proof.
  intros Q. unfold tick. rewrite Q. destruct x as [t k]. cbn [weight].
  pose proof (run_task_weight k (set_now (Nat.max (now w) t) (set_queue q w))) as H.
  cbn [queue set_now set_queue] in H. lia.
Qed.

Lemma await_loop_adequate fuel p w w' :
  weight (queue w) <= fuel ->
  await_loop fuel p w = (Hang, w') -> queue w' = [] /\ promises w' p = None.
Proof.
  revert w. induction fuel as [| fuel IH]; intros w L; cbn [await_loop].
  - destruct (promises w p) as [[v | e] |] eqn:P; try discriminate.
    intros E. injection E as <-. split; [| exact P].
    destruct (queue w) as [| [t k] q] eqn:Q; [reflexivity |].
    cbn [weight] in L. pose proof (task_weight_pos k). lia.
  - destruct (promises w p) as [[v | e] |] eqn:P; try discriminate.
    destruct (queue w) as [| x q] eqn:Q.
    + intros E. injection E as <-. split; assumption.
    + apply IH. pose proof (tick_weight w Q) as T. rewrite Q in T. lia.
Qed.

Lemma await_hang p w w' :
  await p w = (Hang, w') -> queue w' = [] /\ promises w' p = None.
Proof. apply await_loop_adequate. lia. Qed.
